(** * ConnectionRegistry (src/core/ConnectionRegistry.js): a shallow embedding

    The registry is a JavaScript class whose methods mutate four [Map]s and
    interact with three kinds of outside objects: WebSocket connections,
    message queues and the Node.js timer queue.  The embedding keeps all of
    them in one explicit [World] record:
    - the four maps of the class ([connectionsByAuth], [messageQueues],
      [reconnectGraceTimers], [reconnectingAccounts]);
    - a heap of WebSocket objects (by object identity, a [nat]), recording
      the listeners attached to each and every [close] call made on it;
    - a heap of message-queue objects, recording every value passed to
      [enqueue] and whether [close] was called;
    - the pending timers of the event loop, and the suspended continuations
      of the [async] grace-timer callback (the [await Promise.race]);
    - the list of observable outputs (emitted events, logger lines that the
      claims talk about, invocations of the recovery callback).

    The event loop is modelled by [exec] over the operations [Op] that the
    outside world (and the timers) can trigger; any order of them is allowed. *)

From stdpp Require Import base gmap strings list fin_maps.
From Stdlib Require Import ZArith Lia.

Open Scope Z_scope.
Set Warnings "-register-all".

(* ------------------------------------------------------------------ *)
(** ** JavaScript values *)

(** The values that reach the registry: [clientInfo.authIndex] and the
    result of [JSON.parse] on an inbound frame.  Numbers with an integer
    value are [VNum]; a finite number that is not an integer is [VFrac]
    (only its sign matters to the code). *)
Inductive value :=
| VUndefined
| VNull
| VBool (b : bool)
| VNum (z : Z)
| VFrac (negative : bool)
| VNaN
| VStr (s : string)
| VArr (l : list value)
| VObj (fields : list (string * value)).

(** Property lookup in an object literal: [JSON.parse] keeps the last of
    duplicated keys. *)
Fixpoint assoc_last (k : string) (l : list (string * value)) : option value :=
  match l with
  | [] => None
  | (k', v) :: r =>
      match assoc_last k r with
      | Some v' => Some v'
      | None => if String.eqb k k' then Some v else None
      end
  end.

(** [v.k]: [None] when the access throws (a [TypeError] on [undefined]
    and [null]), [Some VUndefined] when the property is absent. *)
Definition get_prop (v : value) (k : string) : option value :=
  match v with
  | VUndefined | VNull => None
  | VObj fs => Some (match assoc_last k fs with Some x => x | None => VUndefined end)
  | _ => Some VUndefined
  end.

(** JavaScript truthiness. *)
Definition truthy (v : value) : bool :=
  match v with
  | VUndefined | VNull | VNaN => false
  | VBool b => b
  | VNum z => negb (z =? 0)
  | VStr s => negb (String.eqb s "")
  | VFrac _ | VArr _ | VObj _ => true
  end.

(** [v < 0].  For a value that is not a number the outcome never decides
    [addConnection]'s test: [Number.isInteger] is false there anyway. *)
Definition js_lt_zero (v : value) : bool :=
  match v with
  | VNum z => z <? 0
  | VFrac neg => neg
  | _ => false
  end.

Definition number_isInteger (v : value) : bool :=
  match v with VNum _ => true | _ => false end.

(* ------------------------------------------------------------------ *)
(** ** Outside objects *)

Inductive listener := LMessage | LClose | LError.

#[global] Instance listener_eq_dec : EqDecision listener.
Proof. solve_decision. Defined.

(** A WebSocket object: the [_authIndex] stamped on it, its listeners in
    registration order, the arguments of every [close] call made on it
    ([None] for [close()] without arguments), and whether its [close]
    event has already fired. *)
Record WebSocket := {
  ws_authIndex : option Z;
  ws_listeners : list listener;
  ws_closeCalls : list (option (Z * string));
  ws_closed : bool
}.

Definition fresh_ws : WebSocket :=
  {| ws_authIndex := None; ws_listeners := []; ws_closeCalls := []; ws_closed := false |}.

(** A MessageQueue object, seen from the registry: the values passed to
    [enqueue] in call order, and whether [close] was called. *)
Record MQueue := {
  q_enqueued : list value;
  q_closed : bool
}.

Definition fresh_queue : MQueue := {| q_enqueued := []; q_closed := false |}.

Definition enqueue (x : value) (q : MQueue) : MQueue :=
  {| q_enqueued := q_enqueued q ++ [x]; q_closed := q_closed q |}.

Definition close_queue (q : MQueue) : MQueue :=
  {| q_enqueued := q_enqueued q; q_closed := true |}.

(** A pending timer: the grace timer of an account (5000 ms) or the
    timeout raced against the recovery callback (55000 ms). *)
Inductive TimerKind :=
| TGrace (authIndex : Z)
| TRecoveryTimeout (authIndex : Z).

Record Timer := { t_kind : TimerKind; t_delay : Z }.

(** Logger lines the claims talk about. *)
Inductive LogEntry :=
| LogInvalidAuthIndex (v : value)
| LogParseFailed
| LogMissingRequestId
| LogUnknownRequestId (rid : value)
| LogUnknownEventType (et : value)
| LogReconnectCompleted (a : Z)
| LogReconnectFailed (a : Z).

Inductive Output :=
| OutLog (e : LogEntry)
| OutEmit (name : string)
(** the recovery callback is called for account [a]; [flag] is
    [reconnectingAccounts.get(a)] at the moment of the call *)
| OutRecover (a : Z) (flag : option bool).

(* ------------------------------------------------------------------ *)
(** ** The world *)

Record World := {
  connectionsByAuth : gmap Z nat;
  messageQueues : gmap string nat;
  reconnectGraceTimers : gmap Z nat;
  reconnectingAccounts : gmap Z bool;
  sockets : gmap nat WebSocket;
  queues : gmap nat MQueue;
  timers : gmap nat Timer;
  (** continuations suspended at [await Promise.race(...)], keyed by the id
      of the timeout timer they race against, with their account *)
  suspended : gmap nat Z;
  next_id : nat;
  outputs : list Output
}.

(** Field updates of [World] (JavaScript assignments to [this.<field>]). *)
Definition set_connectionsByAuth (x : gmap Z nat) (s : World) : World :=
  {| connectionsByAuth := x; messageQueues := messageQueues s; reconnectGraceTimers := reconnectGraceTimers s; reconnectingAccounts := reconnectingAccounts s; sockets := sockets s; queues := queues s; timers := timers s; suspended := suspended s; next_id := next_id s; outputs := outputs s |}.
Definition set_messageQueues (x : gmap string nat) (s : World) : World :=
  {| connectionsByAuth := connectionsByAuth s; messageQueues := x; reconnectGraceTimers := reconnectGraceTimers s; reconnectingAccounts := reconnectingAccounts s; sockets := sockets s; queues := queues s; timers := timers s; suspended := suspended s; next_id := next_id s; outputs := outputs s |}.
Definition set_reconnectGraceTimers (x : gmap Z nat) (s : World) : World :=
  {| connectionsByAuth := connectionsByAuth s; messageQueues := messageQueues s; reconnectGraceTimers := x; reconnectingAccounts := reconnectingAccounts s; sockets := sockets s; queues := queues s; timers := timers s; suspended := suspended s; next_id := next_id s; outputs := outputs s |}.
Definition set_reconnectingAccounts (x : gmap Z bool) (s : World) : World :=
  {| connectionsByAuth := connectionsByAuth s; messageQueues := messageQueues s; reconnectGraceTimers := reconnectGraceTimers s; reconnectingAccounts := x; sockets := sockets s; queues := queues s; timers := timers s; suspended := suspended s; next_id := next_id s; outputs := outputs s |}.
Definition set_sockets (x : gmap nat WebSocket) (s : World) : World :=
  {| connectionsByAuth := connectionsByAuth s; messageQueues := messageQueues s; reconnectGraceTimers := reconnectGraceTimers s; reconnectingAccounts := reconnectingAccounts s; sockets := x; queues := queues s; timers := timers s; suspended := suspended s; next_id := next_id s; outputs := outputs s |}.
Definition set_queues (x : gmap nat MQueue) (s : World) : World :=
  {| connectionsByAuth := connectionsByAuth s; messageQueues := messageQueues s; reconnectGraceTimers := reconnectGraceTimers s; reconnectingAccounts := reconnectingAccounts s; sockets := sockets s; queues := x; timers := timers s; suspended := suspended s; next_id := next_id s; outputs := outputs s |}.
Definition set_timers (x : gmap nat Timer) (s : World) : World :=
  {| connectionsByAuth := connectionsByAuth s; messageQueues := messageQueues s; reconnectGraceTimers := reconnectGraceTimers s; reconnectingAccounts := reconnectingAccounts s; sockets := sockets s; queues := queues s; timers := x; suspended := suspended s; next_id := next_id s; outputs := outputs s |}.
Definition set_suspended (x : gmap nat Z) (s : World) : World :=
  {| connectionsByAuth := connectionsByAuth s; messageQueues := messageQueues s; reconnectGraceTimers := reconnectGraceTimers s; reconnectingAccounts := reconnectingAccounts s; sockets := sockets s; queues := queues s; timers := timers s; suspended := x; next_id := next_id s; outputs := outputs s |}.
Definition set_next_id (x : nat) (s : World) : World :=
  {| connectionsByAuth := connectionsByAuth s; messageQueues := messageQueues s; reconnectGraceTimers := reconnectGraceTimers s; reconnectingAccounts := reconnectingAccounts s; sockets := sockets s; queues := queues s; timers := timers s; suspended := suspended s; next_id := x; outputs := outputs s |}.
Definition set_outputs (x : list Output) (s : World) : World :=
  {| connectionsByAuth := connectionsByAuth s; messageQueues := messageQueues s; reconnectGraceTimers := reconnectGraceTimers s; reconnectingAccounts := reconnectingAccounts s; sockets := sockets s; queues := queues s; timers := timers s; suspended := suspended s; next_id := next_id s; outputs := x |}.

(* ------------------------------------------------------------------ *)
(** ** Helpers: events, logger, objects, timers *)

Definition output (o : Output) (s : World) : World := set_outputs (outputs s ++ [o]) s.
Definition emit (name : string) (s : World) : World := output (OutEmit name) s.
Definition log (e : LogEntry) (s : World) : World := output (OutLog e) s.

Definition ws_get (w : nat) (s : World) : WebSocket := default fresh_ws (sockets s !! w).

Definition ws_update (w : nat) (f : WebSocket -> WebSocket) (s : World) : World :=
  set_sockets (<[w := f (ws_get w s)]> (sockets s)) s.

(** [ws.close(code, reason)]: recorded; the [close] event comes later from
    the event loop ([OpSocketClose]). *)
Definition ws_close_call (c : option (Z * string)) (x : WebSocket) : WebSocket :=
  {| ws_authIndex := ws_authIndex x; ws_listeners := ws_listeners x;
     ws_closeCalls := ws_closeCalls x ++ [c]; ws_closed := ws_closed x |}.

Definition ws_removeAllListeners (x : WebSocket) : WebSocket :=
  {| ws_authIndex := ws_authIndex x; ws_listeners := [];
     ws_closeCalls := ws_closeCalls x; ws_closed := ws_closed x |}.

(** [websocket._authIndex = a] and the three [websocket.on(...)] calls. *)
Definition ws_register (a : Z) (x : WebSocket) : WebSocket :=
  {| ws_authIndex := Some a; ws_listeners := ws_listeners x ++ [LMessage; LClose; LError];
     ws_closeCalls := ws_closeCalls x; ws_closed := ws_closed x |}.

Definition ws_mark_closed (x : WebSocket) : WebSocket :=
  {| ws_authIndex := ws_authIndex x; ws_listeners := ws_listeners x;
     ws_closeCalls := ws_closeCalls x; ws_closed := true |}.

(** [setTimeout(f, delay)]: a fresh timer id. *)
Definition setTimeout (k : TimerKind) (delay : Z) (s : World) : nat * World :=
  (next_id s,
   set_next_id (S (next_id s))
     (set_timers (<[next_id s := {| t_kind := k; t_delay := delay |}]> (timers s)) s)).

(** [clearTimeout(id)]: a no-op on a timer that already fired. *)
Definition clearTimeout (t : nat) (s : World) : World := set_timers (delete t (timers s)) s.

(** Closing a list of queue objects, one [queue.close()] each. *)
Definition close_queues (ids : list nat) (qs : gmap nat MQueue) : gmap nat MQueue :=
  foldr (fun qid acc => alter close_queue qid acc) qs ids.

(** [closeAllMessageQueues()] *)
Definition closeAllMessageQueues (s : World) : World :=
  if (0 <? size (messageQueues s))%nat then
    set_messageQueues ∅
      (set_queues (close_queues (map snd (map_to_list (messageQueues s))) (queues s)) s)
  else s.

(** [createMessageQueue(requestId)] *)
Definition createMessageQueue (rid : string) (s : World) : World :=
  let q := next_id s in
  set_messageQueues (<[rid := q]> (messageQueues s))
    (set_queues (<[q := fresh_queue]> (queues s)) (set_next_id (S q) s)).

(** [removeMessageQueue(requestId)] *)
Definition removeMessageQueue (rid : string) (s : World) : World :=
  match messageQueues s !! rid with
  | Some q => set_messageQueues (delete rid (messageQueues s))
                (set_queues (alter close_queue q (queues s)) s)
  | None => s
  end.

(** [getConnectionByAuth(authIndex)] *)
Definition getConnectionByAuth (a : Z) (s : World) : option nat := connectionsByAuth s !! a.

(** [isReconnectingInProgress()]: [this.reconnectingAccounts.size > 0]. *)
Definition isReconnectingInProgress (s : World) : bool :=
  (0 <? size (reconnectingAccounts s))%nat.

(** [isInGracePeriod()].  [cur] is what [getCurrentAuthIndex] returns, [-1]
    when the registry has no accessor. *)
Definition isInGracePeriod (cur : Z) (s : World) : bool :=
  (0 <=? cur) && match reconnectGraceTimers s !! cur with Some _ => true | None => false end.

(* ------------------------------------------------------------------ *)
(** ** addConnection *)

(** The guard [authIndex === undefined || authIndex < 0 || !Number.isInteger(authIndex)]. *)
Definition rejectAuthIndex (v : value) : bool :=
  match v with
  | VUndefined => true
  | _ => js_lt_zero v || negb (number_isInteger v)
  end.

(** The three steps of a valid [addConnection], in the order of the source. *)

(** "Check if there's already a connection for this authIndex": a
    different one is detached and closed. *)
Definition replaceExisting (a : Z) (w : nat) (s : World) : World :=
  match connectionsByAuth s !! a with
  | Some e => if Nat.eqb e w then s
              else ws_update e (fun x => ws_close_call (Some (1000, "Replaced by new connection"))
                                           (ws_removeAllListeners x)) s
  | None => s
  end.

(** "Clear grace timer for this authIndex", and the stale queues of a
    reconnected current account. *)
Definition clearGraceOnReconnect (a cur : Z) (s : World) : World :=
  match reconnectGraceTimers s !! a with
  | Some t =>
      let s' := set_reconnectGraceTimers (delete a (reconnectGraceTimers s)) (clearTimeout t s) in
      if Z.eqb a cur && (0 <? size (messageQueues s'))%nat then closeAllMessageQueues s' else s'
  | None => s
  end.

(** "Store connection by authIndex", stamp it, attach the listeners, emit. *)
Definition storeConnection (a : Z) (w : nat) (s : World) : World :=
  let s1 := set_connectionsByAuth (<[a := w]> (connectionsByAuth s)) s in
  emit "connectionAdded" (ws_update w (ws_register a) s1).

Definition addConnection (w : nat) (authIndex : value) (cur : Z) (s : World) : World :=
  if rejectAuthIndex authIndex then
    ws_update w (ws_close_call (Some (1008, "Invalid authIndex"))) (log (LogInvalidAuthIndex authIndex) s)
  else
    let a := match authIndex with VNum a => a | _ => 0 (* not reached: rejected above *) end in
    storeConnection a w (clearGraceOnReconnect a cur (replaceExisting a w s)).

(* ------------------------------------------------------------------ *)
(** ** Inbound frames: _handleIncomingMessage and _routeMessage *)

(** The terminal marker [{ type: "STREAM_END" }]. *)
Definition STREAM_END : value := VObj [("type", VStr "STREAM_END")].

(** [v === "lit"]: strict equality with a string literal, the comparison
    a [switch] makes against each [case]. *)
Definition strict_eq_str (v : value) (lit : string) : bool :=
  match v with VStr s => String.eqb s lit | _ => false end.

(** [_routeMessage(message, queue)], [queue] being the object id [q]. *)
Definition routeMessage (message : value) (q : nat) (s : World) : World :=
  let event_type := default VUndefined (get_prop message "event_type") in
  if strict_eq_str event_type "response_headers" || strict_eq_str event_type "chunk"
     || strict_eq_str event_type "error" then
    set_queues (alter (enqueue message) q (queues s)) s
  else if strict_eq_str event_type "stream_close" then
    set_queues (alter (enqueue STREAM_END) q (queues s)) s
  else log (LogUnknownEventType event_type) s.

(** [this.messageQueues.get(requestId)]: the map is keyed by the request
    ids given to [createMessageQueue], which are strings; a key of any
    other type finds nothing. *)
Definition queue_lookup (requestId : value) (s : World) : option nat :=
  match requestId with
  | VStr rid => messageQueues s !! rid
  | _ => None
  end.

(** The body of the [try] block.  [data] is the outcome of
    [JSON.parse(messageData)]: [None] when it throws.  [inr] is an
    exception thrown inside the block. *)
Definition handleIncomingMessage_try (data : option value) (s : World) : World + unit :=
  match data with
  | None => inr tt
  | Some parsedMessage =>
      match get_prop parsedMessage "request_id" with
      | None => inr tt
      | Some requestId =>
          if negb (truthy requestId) then inl (log LogMissingRequestId s)
          else match queue_lookup requestId s with
               | Some q => inl (routeMessage parsedMessage q s)
               | None => inl (log (LogUnknownRequestId requestId) s)
               end
      end
  end.

(** [_handleIncomingMessage(messageData)]: the [catch] logs and drops. *)
Definition handleIncomingMessage (data : option value) (s : World) : World :=
  match handleIncomingMessage_try data s with
  | inl s' => s'
  | inr _ => log LogParseFailed s
  end.

(* ------------------------------------------------------------------ *)
(** ** Teardown and the grace-period state machine *)

(** What the call [this.onConnectionLostCallback(authIndex)] does
    synchronously: return (a promise, settled later) or throw. *)
Inductive CallbackCall := CbReturns | CbThrows.

(** How the awaited [Promise.race] settled. *)
Inductive RaceOutcome := RaceResolved | RaceRejected.

Section Registry.

(** [this.browserManager !== null] and [this.onConnectionLostCallback !== null],
    fixed by the constructor. *)
Variable hasBrowserManager : bool.
Variable hasCallback : bool.

(** The end of the grace-timer callback, after the recovery attempt:
    [this.emit("connectionLost"); this.reconnectGraceTimers.delete(a)]. *)
Definition graceFinish (a : Z) (s : World) : World :=
  set_reconnectGraceTimers (delete a (reconnectGraceTimers s)) (emit "connectionLost" s).

(** The [finally] block: [if (timeoutId) clearTimeout(timeoutId)] and
    [this.reconnectingAccounts.delete(a)]. *)
Definition recoveryFinally (timeoutId : option nat) (a : Z) (s : World) : World :=
  let s1 := match timeoutId with Some t => clearTimeout t s | None => s end in
  set_reconnectingAccounts (delete a (reconnectingAccounts s1)) s1.

(** The grace-timer callback of account [a], run when the timer fires, up
    to its [await] (or to its end when nothing is awaited).  [cur] is what
    [getCurrentAuthIndex] returns at that moment ([-1] without accessor). *)
Definition graceExpire (a : Z) (cur : Z) (cb : CallbackCall) (s : World) : World :=
  let isCurrentAccount := Z.eqb a cur in
  let s1 := if isCurrentAccount then closeAllMessageQueues s else s in
  let isAccountReconnecting := default false (reconnectingAccounts s1 !! a) in
  if hasCallback && negb isAccountReconnecting then
    let s2 := set_reconnectingAccounts (<[a := true]> (reconnectingAccounts s1)) s1 in
    let s3 := output (OutRecover a (reconnectingAccounts s2 !! a)) s2 in
    match cb with
    | CbThrows =>
        (* caught before the timeout promise exists: timeoutId is undefined *)
        graceFinish a (recoveryFinally None a (log (LogReconnectFailed a) s3))
    | CbReturns =>
        let '(timeoutId, s4) := setTimeout (TRecoveryTimeout a) 55000 s3 in
        set_suspended (<[timeoutId := a]> (suspended s4)) s4
    end
  else graceFinish a s1.

(** The continuation after [await Promise.race([callbackPromise, timeoutPromise])]
    of the callback suspended with timeout timer [t]. *)
Definition resumeRecovery (t : nat) (r : RaceOutcome) (s : World) : World :=
  match suspended s !! t with
  | Some a =>
      let s0 := set_suspended (delete t (suspended s)) s in
      let s1 := match r with
                | RaceResolved => log (LogReconnectCompleted a) s0
                | RaceRejected => log (LogReconnectFailed a) s0
                end in
      graceFinish a (recoveryFinally (Some t) a s1)
  | None => s
  end.

(** [_removeConnection(websocket)].  [pageLive] is the browser-side test
    [contextData && contextData.page && !contextData.page.isClosed()]. *)
Definition removeConnection (w : nat) (pageLive : bool) (s : World) : World :=
  match ws_authIndex (ws_get w s) with
  | None => emit "connectionRemoved" s
  | Some a =>
    let s1 := set_connectionsByAuth (delete a (connectionsByAuth s)) s in
    if hasBrowserManager && negb pageLive then
      let s2 := match reconnectGraceTimers s1 !! a with
                | Some t => set_reconnectGraceTimers (delete a (reconnectGraceTimers s1)) (clearTimeout t s1)
                | None => s1
                end in
      emit "connectionRemoved" s2
    else
      let s2 := match reconnectGraceTimers s1 !! a with
                | Some t => clearTimeout t s1
                | None => s1
                end in
      let '(graceTimerId, s3) := setTimeout (TGrace a) 5000 s2 in
      emit "connectionRemoved"
        (set_reconnectGraceTimers (<[a := graceTimerId]> (reconnectGraceTimers s3)) s3)
  end.

(** [closeConnectionByAuth(authIndex)] *)
Definition closeConnectionByAuth (a : Z) (s : World) : World :=
  match connectionsByAuth s !! a with
  | Some w =>
      let s1 := ws_update w (ws_close_call None) s in
      let s2 := set_connectionsByAuth (delete a (connectionsByAuth s1)) s1 in
      match reconnectGraceTimers s2 !! a with
      | Some t => set_reconnectGraceTimers (delete a (reconnectGraceTimers s2)) (clearTimeout t s2)
      | None => s2
      end
  | None => s
  end.

(** Running a listener once per registration, as [EventEmitter.emit] does. *)
Definition count_listener (l : listener) (ls : list listener) : nat :=
  length (filter (fun x => x = l) ls).

(* ------------------------------------------------------------------ *)
(** ** The event loop *)

Inductive Op :=
| OpAddConnection (w : nat) (authIndex : value) (cur : Z)
| OpSocketMessage (w : nat) (data : option value)
| OpSocketClose (w : nat) (pageLive : bool)
| OpCloseConnectionByAuth (a : Z)
| OpCreateMessageQueue (rid : string)
| OpRemoveMessageQueue (rid : string)
| OpCloseAllMessageQueues
| OpTimerFires (t : nat) (cur : Z) (cb : CallbackCall)
| OpCallbackSettles (t : nat) (r : RaceOutcome).

Definition exec (op : Op) (s : World) : World :=
  match op with
  | OpAddConnection w v cur => addConnection w v cur s
  | OpSocketMessage w data =>
      let x := ws_get w s in
      if ws_closed x then s
      else Nat.iter (count_listener LMessage (ws_listeners x)) (handleIncomingMessage data) s
  | OpSocketClose w pageLive =>
      let x := ws_get w s in
      if ws_closed x then s
      else Nat.iter (count_listener LClose (ws_listeners x)) (removeConnection w pageLive)
             (ws_update w ws_mark_closed s)
  | OpCloseConnectionByAuth a => closeConnectionByAuth a s
  | OpCreateMessageQueue rid => createMessageQueue rid s
  | OpRemoveMessageQueue rid => removeMessageQueue rid s
  | OpCloseAllMessageQueues => closeAllMessageQueues s
  | OpTimerFires t cur cb =>
      match timers s !! t with
      | Some {| t_kind := TGrace a |} => graceExpire a cur cb (clearTimeout t s)
      | Some {| t_kind := TRecoveryTimeout _ |} => resumeRecovery t RaceRejected (clearTimeout t s)
      | None => s
      end
  | OpCallbackSettles t r => resumeRecovery t r s
  end.

Definition run (ops : list Op) (s : World) : World := foldl (fun s op => exec op s) s ops.

Definition init : World :=
  {| connectionsByAuth := ∅; messageQueues := ∅; reconnectGraceTimers := ∅;
     reconnectingAccounts := ∅; sockets := ∅; queues := ∅; timers := ∅;
     suspended := ∅; next_id := 0; outputs := [] |}.

Definition reachable (s : World) : Prop := exists ops, run ops init = s.

End Registry.

(* ------------------------------------------------------------------ *)
(** * Properties *)

(** Routing as the spec describes it, used to state the routing claim:
    the values a frame should put on its queue, and the logger lines it
    should produce. *)
Definition spec_event_type (f : value) : value := default VUndefined (get_prop f "event_type").

(** the kinds a frame can have, by the value of its [event_type] *)
Definition spec_is_kind (f : value) (k : string) : bool :=
  match spec_event_type f with VStr s => String.eqb s k | _ => false end.

Definition spec_enqueued (f : value) : list value :=
  if spec_is_kind f "response_headers" || spec_is_kind f "chunk" || spec_is_kind f "error" then [f]
  else if spec_is_kind f "stream_close" then [STREAM_END]
  else [].

Definition spec_logged (f : value) : list Output :=
  if spec_is_kind f "response_headers" || spec_is_kind f "chunk" || spec_is_kind f "error"
     || spec_is_kind f "stream_close" then []
  else [OutLog (LogUnknownEventType (spec_event_type f))].

(** The example of the spec: tenant 3 connects, queue [r1] is created,
    three chunks and one [stream_close] arrive for [r1]. *)
Definition frame (rid et : string) (n : Z) : value :=
  VObj [("request_id", VStr rid); ("event_type", VStr et); ("data", VNum n)].

Definition example_world : World :=
  run false false [OpAddConnection 1 (VNum 3) (-1); OpCreateMessageQueue "r1"] init.

Definition example_frames : list value :=
  [frame "r1" "chunk" 1; frame "r1" "chunk" 2; frame "r1" "chunk" 3; frame "r1" "stream_close" 0].

(** Every handle of [H] other than the registered one has been detached and
    closed as replaced. *)
Definition detached_history (a : Z) (s : World) (H : list nat) : Prop :=
  forall x, x ∈ H -> connectionsByAuth s !! a <> Some x ->
    ws_listeners (ws_get x s) = [] /\
    Some (1000, "Replaced by new connection") ∈ ws_closeCalls (ws_get x s).

Definition one_connection_world : World := run false false [OpAddConnection 1 (VNum 0) (-1)] init.


Definition grace_world : World :=
  run false false [OpCreateMessageQueue "r1"; OpAddConnection 1 (VNum 0) 0; OpSocketClose 1 true] init.

(** A loss of account [x] that is not finalized: its grace timer is
    pending, or its grace-timer callback is suspended at its [await]. *)
Definition loss_pending (s : World) (x : Z) : Prop :=
  (exists t d, timers s !! t = Some {| t_kind := TGrace x; t_delay := d |}) \/
  (exists t, suspended s !! t = Some x).

(** Account 0, with a recovery callback and no browser manager:
    connection 1 registers and closes (grace timer 0); the timer fires and
    the recovery callback is awaited (timeout timer 1); during the await
    connection 2 registers (clearing the entry of timer 0) and closes
    (grace timer 2 and its entry); then the callback resolves, and the
    continuation ends with [reconnectGraceTimers.delete(0)], which removes
    the entry of timer 2 while timer 2 is still pending.  With the real
    delays: close at 0 s, expiry at 5 s, connection 2 at 6 s and closed at
    7 s (timer 2 due at 12 s), callback resolved at 8 s. *)
Definition stale_delete_trace : list Op :=
  [OpAddConnection 1 (VNum 0) (-1); OpSocketClose 1 true; OpTimerFires 0 (-1) CbReturns;
   OpAddConnection 2 (VNum 0) (-1); OpSocketClose 2 true; OpCallbackSettles 1 RaceResolved].

(** The fields the recovery state machine reads and writes. *)
Definition core (s : World) :=
  (reconnectingAccounts s, suspended s, timers s, reconnectGraceTimers s, next_id s).

(** The invariant of the reachable states: the reconnecting flag of [a]
    is set (and only ever to [true]) exactly while a callback of [a] is
    suspended at its [await]; there is at most one such callback per
    account, each with its pending 55 s timeout timer; timer ids are below
    [next_id]; and a grace-timer entry never names a timeout timer. *)
Definition recovery_inv (s : World) : Prop :=
  (forall a, reconnectingAccounts s !! a = Some true <-> exists t, suspended s !! t = Some a) /\
  (forall a b, reconnectingAccounts s !! a = Some b -> b = true) /\
  (forall t1 t2 a, suspended s !! t1 = Some a -> suspended s !! t2 = Some a -> t1 = t2) /\
  (forall t a, suspended s !! t = Some a ->
     timers s !! t = Some {| t_kind := TRecoveryTimeout a; t_delay := 55000 |}) /\
  (forall t a, suspended s !! t = Some a -> (t < next_id s)%nat) /\
  (forall a t, reconnectGraceTimers s !! a = Some t -> (t < next_id s)%nat /\ suspended s !! t = None).

(** A step that leaves the recovery state alone: the flags and suspended
    callbacks are unchanged, their timeout timers too, ids only grow, and
    a new grace-timer entry names a timer created by the step. *)
Definition quiet (s s' : World) : Prop :=
  reconnectingAccounts s' = reconnectingAccounts s /\ suspended s' = suspended s /\
  (next_id s <= next_id s')%nat /\
  (forall t, is_Some (suspended s !! t) -> timers s' !! t = timers s !! t) /\
  (forall a t, reconnectGraceTimers s' !! a = Some t ->
     reconnectGraceTimers s !! a = Some t \/ (next_id s <= t < next_id s')%nat).

(** The invariant of the queue bookkeeping: a registered request id names
    an existing queue object that is still open, with an id below
    [next_id]; two request ids never share a queue object; and every queue
    object has an id below [next_id]. *)
Definition queue_inv (s : World) : Prop :=
  (forall rid q, messageQueues s !! rid = Some q ->
     (q < next_id s)%nat /\ exists Q, queues s !! q = Some Q /\ q_closed Q = false) /\
  (forall rid1 rid2 q, messageQueues s !! rid1 = Some q -> messageQueues s !! rid2 = Some q -> rid1 = rid2) /\
  (forall q, is_Some (queues s !! q) -> (q < next_id s)%nat).

(** A step that leaves the queue bookkeeping alone: the request map is
    unchanged, ids only grow, and no queue is opened, closed, created or
    dropped (frames may be enqueued). *)
Definition qframe (s s' : World) : Prop :=
  messageQueues s' = messageQueues s /\ (next_id s <= next_id s')%nat /\
  (forall q, q_closed <$> queues s' !! q = q_closed <$> queues s !! q).

Definition qcore (s : World) := (messageQueues s, queues s, next_id s).

Ltac unfold_world :=
  cbn [connectionsByAuth messageQueues reconnectGraceTimers reconnectingAccounts sockets
       queues timers suspended next_id outputs
       set_connectionsByAuth set_messageQueues set_reconnectGraceTimers set_reconnectingAccounts
       set_sockets set_queues set_timers set_suspended set_next_id set_outputs
       log emit output ws_update clearTimeout setTimeout
       ws_authIndex ws_listeners ws_closeCalls ws_closed q_enqueued q_closed t_kind t_delay] in *.

Lemma handle_routes (s : World) (f : value) (rid : string) (q : nat) :
  get_prop f "request_id" = Some (VStr rid) -> rid <> "" ->
  messageQueues s !! rid = Some q ->
  handleIncomingMessage (Some f) s = routeMessage f q s.
Proof.
  intros Hr Hne Hq. unfold handleIncomingMessage, handleIncomingMessage_try.
  rewrite Hr. simpl. destruct (String.eqb rid "") eqn:E.
  - apply String.eqb_eq in E. contradiction.
  - simpl. rewrite Hq. reflexivity.
Qed.

Lemma alter_id_fun (q : nat) (m : gmap nat MQueue) : alter (fun Q => Q) q m = m.
Proof. apply alter_id. done. Qed.

Lemma routeMessage_spec (s : World) (f : value) (q : nat) :
  routeMessage f q s =
  set_outputs (outputs s ++ spec_logged f)
    (set_queues (alter (fun Q => foldl (fun Q x => enqueue x Q) Q (spec_enqueued f)) q (queues s)) s).
Proof.
  unfold routeMessage, spec_logged, spec_enqueued, spec_is_kind, spec_event_type, strict_eq_str.
  destruct (default VUndefined (get_prop f "event_type")) as [| | | | | |str| |];
    [..| destruct (String.eqb str "response_headers"), (String.eqb str "chunk"),
           (String.eqb str "error"), (String.eqb str "stream_close") | |];
    simpl; unfold_world; rewrite ?alter_id_fun, ?app_nil_r; reflexivity.
Qed.

(** [a] and [b] differ at most in their queue objects and their outputs. *)
Lemma agree_qo_trans (a b c : World) :
  set_queues (queues b) (set_outputs (outputs b) a) = b ->
  set_queues (queues c) (set_outputs (outputs c) b) = c ->
  set_queues (queues c) (set_outputs (outputs c) a) = c.
Proof.
  destruct a, b, c; unfold_world. intros H1 H2.
  injection H1; injection H2; intros; subst; reflexivity.
Qed.

(** ** C2: routing of the frames of one request *)

Lemma route_frames_fold (s : World) (rid : string) (q : nat) (Q : MQueue)
    (frames : list value) :
  rid <> "" -> messageQueues s !! rid = Some q -> queues s !! q = Some Q ->
  Forall (fun f => get_prop f "request_id" = Some (VStr rid)) frames ->
  let s' := foldl (fun s f => handleIncomingMessage (Some f) s) s frames in
  queues s' !! q = Some (foldl (fun Q x => enqueue x Q) Q (concat (map spec_enqueued frames))) /\
  (forall q', q' <> q -> queues s' !! q' = queues s !! q') /\
  outputs s' = outputs s ++ concat (map spec_logged frames) /\
  set_queues (queues s) (set_outputs (outputs s) s') = s.
Proof.
  intros Hne Hq HQ Hall. revert s Q Hq HQ.
  induction Hall as [|f frames Hf Hall IH]; intros s Q Hq HQ; simpl.
  - rewrite app_nil_r. repeat split; try assumption; try reflexivity. destruct s; reflexivity.
  - rewrite (handle_routes s f rid q Hf Hne Hq), routeMessage_spec.
    set (s1 := set_outputs _ _).
    assert (Hq1 : messageQueues s1 !! rid = Some q) by exact Hq.
    assert (HQ1 : queues s1 !! q = Some (foldl (fun Q x => enqueue x Q) Q (spec_enqueued f))).
    { unfold s1; unfold_world. rewrite lookup_alter_eq, HQ. reflexivity. }
    destruct (IH s1 _ Hq1 HQ1) as (H1 & H2 & H3 & H4).
    repeat split.
    + rewrite H1, foldl_app. reflexivity.
    + intros q' Hq'. rewrite H2 by exact Hq'. unfold s1; unfold_world.
      rewrite lookup_alter_ne by congruence. reflexivity.
    + rewrite H3. unfold s1; unfold_world. rewrite app_assoc. reflexivity.
    + eapply agree_qo_trans; [exact H4|]. unfold s1; unfold_world. destruct s; reflexivity.
Qed.

(** C2.  For any sequence of frames carrying the same [request_id] whose
    queue is registered, [_handleIncomingMessage] passes the frames of kind
    [response_headers], [chunk] and [error] to [queue.enqueue] verbatim and
    in arrival order, turns every [stream_close] into exactly one
    [{type: "STREAM_END"}] (the raw frame is never enqueued), and logs and
    drops any other kind; nothing but that queue and the log changes. *)
Theorem route_frames_in_order (s : World) (rid : string) (q : nat) (Q : MQueue)
    (frames : list value) :
  rid <> "" -> messageQueues s !! rid = Some q -> queues s !! q = Some Q ->
  Forall (fun f => get_prop f "request_id" = Some (VStr rid)) frames ->
  let s' := foldl (fun s f => handleIncomingMessage (Some f) s) s frames in
  queues s' !! q = Some (foldl (fun Q x => enqueue x Q) Q (concat (map spec_enqueued frames))) /\
  (forall q', q' <> q -> queues s' !! q' = queues s !! q') /\
  outputs s' = outputs s ++ concat (map spec_logged frames) /\
  set_queues (queues s) (set_outputs (outputs s) s') = s.
Proof.
  intros Hne Hq HQ Hall. exact (route_frames_fold s rid q Q frames Hne Hq HQ Hall).
Qed.

Lemma route_frames_in_order_witness :
  queues (foldl (fun s f => handleIncomingMessage (Some f) s) example_world example_frames) !! 0%nat
  = Some {| q_enqueued := [frame "r1" "chunk" 1; frame "r1" "chunk" 2; frame "r1" "chunk" 3; STREAM_END];
            q_closed := false |}.
Proof.
  destruct (route_frames_in_order example_world "r1" 0 fresh_queue example_frames) as [H _].
  - discriminate.
  - vm_compute. reflexivity.
  - vm_compute. reflexivity.
  - repeat constructor.
  - rewrite H. vm_compute. reflexivity.
Defined.

(** ** C3: dropping frames never raises *)

(** C3.  [_handleIncomingMessage] never raises: a frame that does not parse
    (or whose parsed value has no properties), a frame without a truthy
    [request_id], and a frame whose request id has no registered queue are
    each logged and dropped; the last case leaves every map of the
    registry, and every other object, as it was. *)
Theorem handle_drops_without_raising :
  (forall s, handleIncomingMessage None s = log LogParseFailed s) /\
  (forall s v, get_prop v "request_id" = None ->
     handleIncomingMessage (Some v) s = log LogParseFailed s) /\
  (forall s v rid, get_prop v "request_id" = Some rid -> truthy rid = false ->
     handleIncomingMessage (Some v) s = log LogMissingRequestId s) /\
  (forall s v rid, get_prop v "request_id" = Some rid -> truthy rid = true ->
     queue_lookup rid s = None ->
     handleIncomingMessage (Some v) s = log (LogUnknownRequestId rid) s /\
     set_outputs (outputs s) (handleIncomingMessage (Some v) s) = s).
Proof.
  unfold handleIncomingMessage, handleIncomingMessage_try.
  refine (conj _ (conj _ (conj _ _))).
  - intros s. reflexivity.
  - intros s v H. rewrite H. reflexivity.
  - intros s v rid H Ht. rewrite H. simpl. rewrite Ht. reflexivity.
  - intros s v rid H Ht Hq. rewrite H. simpl. rewrite Ht, Hq. split; [reflexivity|]. unfold_world. destruct s; reflexivity.
Qed.

(** ** Lemmas on closeAllMessageQueues and addConnection *)

Lemma close_queues_in (ids : list nat) (qs : gmap nat MQueue) (q : nat) :
  q ∈ ids -> close_queues ids qs !! q = close_queue <$> qs !! q.
Proof.
  induction ids as [|x ids IH]; simpl; intros Hin.
  - set_solver.
  - rewrite lookup_alter. case_decide as E.
    + subst x. destruct (decide (q ∈ ids)) as [Hi|Hi].
      * rewrite IH by exact Hi. destruct (qs !! q); reflexivity.
      * (* the first occurrence: below it nothing closed q yet *)
        assert (Hn : close_queues ids qs !! q = qs !! q).
        { clear IH Hin. induction ids as [|y ids IH2]; simpl; [reflexivity|].
          rewrite lookup_alter_ne; [apply IH2; set_solver|set_solver]. }
        rewrite Hn. destruct (qs !! q); reflexivity.
    + apply IH. set_solver.
Qed.

Lemma close_queues_notin (ids : list nat) (qs : gmap nat MQueue) (q : nat) :
  q ∉ ids -> close_queues ids qs !! q = qs !! q.
Proof.
  induction ids as [|x ids IH]; simpl; intros Hin; [reflexivity|].
  rewrite lookup_alter_ne by set_solver. apply IH. set_solver.
Qed.

Lemma registered_queue_in_ids (m : gmap string nat) (rid : string) (q : nat) :
  m !! rid = Some q -> q ∈ map snd (map_to_list m).
Proof.
  intros H. apply list_elem_of_fmap. exists (rid, q). split; [reflexivity|].
  apply elem_of_map_to_list. exact H.
Qed.

Lemma closeAll_eq (s : World) :
  closeAllMessageQueues s =
  set_messageQueues ∅ (set_queues (close_queues (map snd (map_to_list (messageQueues s))) (queues s)) s).
Proof.
  unfold closeAllMessageQueues. destruct (0 <? size (messageQueues s))%nat eqn:E; [reflexivity|].
  apply Nat.ltb_ge in E. assert (Hm : messageQueues s = ∅).
  { apply map_size_empty_inv. lia. }
  rewrite Hm, map_to_list_empty. simpl. unfold_world. destruct s; simpl in *; subst; reflexivity.
Qed.

Lemma reject_valid (a : Z) : 0 <= a -> rejectAuthIndex (VNum a) = false.
Proof. intros H. unfold rejectAuthIndex. simpl. destruct (Z.ltb_spec a 0); [lia|reflexivity]. Qed.

Lemma reject_iff (v : value) :
  rejectAuthIndex v = false <-> exists a, v = VNum a /\ 0 <= a.
Proof.
  split.
  - destruct v; simpl; try (destruct negative); try discriminate.
    intros H. exists z. split; [reflexivity|].
    destruct (Z.ltb_spec z 0); simpl in H; [discriminate|lia].
  - intros (a & -> & H). apply reject_valid. exact H.
Qed.


(** The effect of a valid [addConnection] on the registry's maps and timers. *)
Lemma addConnection_valid_maps (w : nat) (a cur : Z) (s : World) :
  0 <= a ->
  let s' := addConnection w (VNum a) cur s in
  connectionsByAuth s' = <[a := w]> (connectionsByAuth s) /\
  reconnectGraceTimers s' = delete a (reconnectGraceTimers s) /\
  timers s' = (match reconnectGraceTimers s !! a with
               | Some t => delete t (timers s) | None => timers s end) /\
  reconnectingAccounts s' = reconnectingAccounts s /\
  suspended s' = suspended s /\ next_id s' = next_id s /\
  (if bool_decide (is_Some (reconnectGraceTimers s !! a)) && Z.eqb a cur
        && (0 <? size (messageQueues s))%nat
   then messageQueues s' = ∅ /\
        queues s' = close_queues (map snd (map_to_list (messageQueues s))) (queues s)
   else messageQueues s' = messageQueues s /\ queues s' = queues s).
Proof.
  intros Ha. unfold addConnection. rewrite reject_valid by exact Ha. cbv zeta.
  unfold storeConnection, clearGraceOnReconnect, replaceExisting.
  destruct (connectionsByAuth s !! a) as [e|] eqn:Ee;
    [destruct (Nat.eqb e w) eqn:Ew|]; unfold_world;
    destruct (reconnectGraceTimers s !! a) as [t|] eqn:Et; unfold_world;
    try (rewrite (delete_id (reconnectGraceTimers s) a) by exact Et);
    try (destruct (Z.eqb a cur && (0 <? size (messageQueues s))%nat) eqn:Ec;
         [rewrite closeAll_eq|]); unfold_world; simpl; try rewrite Ec;
    repeat split; reflexivity.
Qed.

Lemma ws_get_update (x e : nat) (f : WebSocket -> WebSocket) (s : World) :
  ws_get x (ws_update e f s) = if decide (x = e) then f (ws_get e s) else ws_get x s.
Proof.
  unfold ws_get, ws_update. unfold_world. case_decide as E.
  - subst. rewrite lookup_insert_eq. reflexivity.
  - rewrite lookup_insert_ne by congruence. reflexivity.
Qed.

Lemma closeAll_sockets (s : World) : sockets (closeAllMessageQueues s) = sockets s.
Proof. rewrite closeAll_eq. reflexivity. Qed.

Lemma closeAll_outputs (s : World) : outputs (closeAllMessageQueues s) = outputs s.
Proof. rewrite closeAll_eq. reflexivity. Qed.

(** The effect of a valid [addConnection] on the WebSocket objects. *)
Lemma addConnection_valid_sockets (w x : nat) (a cur : Z) (s : World) :
  0 <= a ->
  ws_get x (addConnection w (VNum a) cur s) =
  if decide (x = w) then ws_register a (ws_get w s)
  else if decide (connectionsByAuth s !! a = Some x)
       then ws_close_call (Some (1000, "Replaced by new connection")) (ws_removeAllListeners (ws_get x s))
       else ws_get x s.
Proof.
  intros Ha. unfold addConnection. rewrite reject_valid by exact Ha. cbv zeta.
  assert (Hc : forall y s1, ws_get y (clearGraceOnReconnect a cur s1) = ws_get y s1).
  { intros y s1. unfold clearGraceOnReconnect. destruct (reconnectGraceTimers s1 !! a); [|reflexivity].
    cbv zeta. destruct (_ && _); [unfold ws_get; rewrite closeAll_sockets|]; reflexivity. }
  assert (Hr : forall y, ws_get y (replaceExisting a w s) =
                 if decide (y <> w /\ connectionsByAuth s !! a = Some y)
                 then ws_close_call (Some (1000, "Replaced by new connection")) (ws_removeAllListeners (ws_get y s))
                 else ws_get y s).
  { intros y. unfold replaceExisting. destruct (connectionsByAuth s !! a) as [e|] eqn:Ee.
    - destruct (Nat.eqb_spec e w) as [->|Hew].
      + case_decide as Hd; [destruct Hd; congruence|reflexivity].
      + rewrite ws_get_update. case_decide as Hd1; case_decide as Hd2; subst; try reflexivity;
          exfalso; naive_solver.
    - case_decide as Hd; [destruct Hd; discriminate|reflexivity]. }
  unfold storeConnection, emit, output. unfold ws_get at 1. cbn [set_outputs sockets].
  fold (ws_get x (ws_update w (ws_register a)
          (set_connectionsByAuth (<[a:=w]> (connectionsByAuth (clearGraceOnReconnect a cur (replaceExisting a w s))))
             (clearGraceOnReconnect a cur (replaceExisting a w s))))).
  rewrite ws_get_update. unfold ws_get at 1 2. cbn [set_connectionsByAuth sockets].
  fold (ws_get w (clearGraceOnReconnect a cur (replaceExisting a w s))).
  fold (ws_get x (clearGraceOnReconnect a cur (replaceExisting a w s))).
  rewrite !Hc, !Hr.
  case_decide as Hxw.
  - subst. case_decide as Hd; [destruct Hd; congruence|reflexivity].
  - case_decide as Hd1; case_decide as Hd2; try reflexivity; exfalso; naive_solver.
Qed.

(** ** C8: invalid account indices are rejected *)

(** C8.  When [clientInfo.authIndex] is undefined, negative or not an
    integer, [addConnection] calls [websocket.close(1008, "Invalid authIndex")]
    and returns: no map of the registry changes, no listener is attached,
    no timer is set or cleared and no queue is touched. *)
Theorem addConnection_rejects_invalid (w : nat) (v : value) (cur : Z) (s : World) :
  v = VUndefined \/ js_lt_zero v = true \/ number_isInteger v = false ->
  let s' := addConnection w v cur s in
  ws_closeCalls (ws_get w s') = ws_closeCalls (ws_get w s) ++ [Some (1008, "Invalid authIndex")] /\
  ws_listeners (ws_get w s') = ws_listeners (ws_get w s) /\
  ws_authIndex (ws_get w s') = ws_authIndex (ws_get w s) /\
  (forall x, x <> w -> ws_get x s' = ws_get x s) /\
  connectionsByAuth s' = connectionsByAuth s /\ messageQueues s' = messageQueues s /\
  reconnectGraceTimers s' = reconnectGraceTimers s /\
  reconnectingAccounts s' = reconnectingAccounts s /\
  queues s' = queues s /\ timers s' = timers s /\ suspended s' = suspended s /\
  next_id s' = next_id s.
Proof.
  intros Hv. assert (Hr : rejectAuthIndex v = true).
  { unfold rejectAuthIndex. destruct Hv as [->|[H|H]]; [reflexivity| |];
      destruct v; try reflexivity; simpl in *; rewrite ?H, ?orb_true_r; try discriminate; reflexivity. }
  cbv zeta. unfold addConnection. rewrite Hr. rewrite !ws_get_update.
  case_decide; [|contradiction].
  repeat split; try reflexivity.
  intros x Hx. rewrite ws_get_update. case_decide; [contradiction|reflexivity].
Qed.

Lemma addConnection_rejects_invalid_witness :
  ws_closeCalls (ws_get 1 (addConnection 1 (VNum (-1)) (-1) init)) = [Some (1008, "Invalid authIndex")] /\
  connectionsByAuth (addConnection 1 (VNum (-1)) (-1) init) = ∅.
Proof.
  destruct (addConnection_rejects_invalid 1 (VNum (-1)) (-1) init) as (H1 & _ & _ & _ & H2 & _).
  - right; left; reflexivity.
  - split; [rewrite H1; reflexivity | rewrite H2; reflexivity].
Defined.

(** ** C1: one connection per account *)

Lemma detached_history_step (a cur : Z) (w : nat) (s : World) (H : list nat) :
  0 <= a -> detached_history a s H ->
  detached_history a (addConnection w (VNum a) cur s)
    (w :: option_list (connectionsByAuth s !! a) ++ H).
Proof.
  intros Ha HP x Hx Hne.
  destruct (addConnection_valid_maps w a cur s Ha) as (Hc & _).
  rewrite Hc, lookup_insert_eq in Hne.
  assert (Hxw : x <> w) by congruence.
  rewrite addConnection_valid_sockets by exact Ha.
  case_decide; [contradiction|]. case_decide as Hcur.
  - cbn. split; [reflexivity|]. apply list_elem_of_In, in_or_app. right. left. reflexivity.
  - apply elem_of_cons in Hx as [Hx|Hx]; [contradiction|].
    apply elem_of_app in Hx as [Hx|Hx].
    + destruct (connectionsByAuth s !! a) eqn:E; cbn in Hx; [|set_solver].
      apply list_elem_of_singleton in Hx. subst. contradiction.
    + apply HP; assumption.
Qed.

Lemma detached_history_fold (a : Z) (calls : list (nat * Z)) :
  0 <= a ->
  forall s H, detached_history a s H ->
  exists H', detached_history a (foldl (fun s c => addConnection c.1 (VNum a) c.2 s) s calls) H' /\
    forall x, x ∈ H \/ x ∈ map fst calls \/ connectionsByAuth s !! a = Some x ->
      x ∈ H' \/
      connectionsByAuth (foldl (fun s c => addConnection c.1 (VNum a) c.2 s) s calls) !! a = Some x.
Proof.
  intros Ha. induction calls as [|[w cur] rest IH]; intros s H HP; simpl.
  - exists H. split; [exact HP|]. intros x [Hx|[Hx|Hx]]; [left; exact Hx|set_solver|right; exact Hx].
  - destruct (IH _ _ (detached_history_step a cur w s H Ha HP)) as (H' & HP' & Hm).
    exists H'. split; [exact HP'|]. intros x Hx. apply Hm.
    destruct Hx as [Hx|[Hx|Hx]].
    + left. set_solver.
    + apply elem_of_cons in Hx as [->|Hx]; [left; set_solver|right; left; exact Hx].
    + left. rewrite Hx. set_solver.
Qed.

(** C1.  After any sequence of [addConnection] calls with the same valid
    account index, the lookup returns the handle added last, and every
    other handle registered on the way (including the one registered
    before the sequence) has had its listeners removed and has been closed
    with [(1000, "Replaced by new connection")]. *)
Theorem addConnection_one_per_tenant (a : Z) (s : World) (calls : list (nat * Z))
    (w : nat) (cur : Z) :
  0 <= a ->
  let s' := foldl (fun s c => addConnection c.1 (VNum a) c.2 s) s (calls ++ [(w, cur)]) in
  getConnectionByAuth a s' = Some w /\
  forall x, (connectionsByAuth s !! a = Some x \/ x ∈ map fst calls) -> x <> w ->
    ws_listeners (ws_get x s') = [] /\
    Some (1000, "Replaced by new connection") ∈ ws_closeCalls (ws_get x s').
Proof.
  intros Ha. cbv zeta. rewrite foldl_app. simpl.
  set (s0 := foldl _ s calls).
  destruct (detached_history_fold a calls Ha s [] ltac:(intros x Hx; set_solver)) as (H' & HP & Hm).
  fold s0 in HP, Hm.
  pose proof (detached_history_step a cur w s0 H' Ha HP) as HP2.
  destruct (addConnection_valid_maps w a cur s0 Ha) as (Hc & _).
  split.
  - unfold getConnectionByAuth. rewrite Hc, lookup_insert_eq. reflexivity.
  - intros x Hx Hxw. apply HP2.
    + destruct (Hm x ltac:(tauto)) as [Hin|Hcur]; [set_solver|].
      rewrite Hcur. set_solver.
    + rewrite Hc, lookup_insert_eq. congruence.
Qed.

Lemma addConnection_one_per_tenant_witness :
  getConnectionByAuth 0 (foldl (fun s c => addConnection c.1 (VNum 0) c.2 s) init
                           ([(1%nat, -1); (2%nat, -1)] ++ [(3%nat, -1)])) = Some 3%nat /\
  ws_listeners (ws_get 1 (foldl (fun s c => addConnection c.1 (VNum 0) c.2 s) init
                           ([(1%nat, -1); (2%nat, -1)] ++ [(3%nat, -1)]))) = [].
Proof.
  pose proof (addConnection_one_per_tenant 0 init [(1%nat, -1); (2%nat, -1)] 3 (-1) ltac:(lia)) as Hth.
  cbv zeta in Hth. destruct Hth as [H1 H2].
  split; [exact H1|]. apply (H2 1%nat); [right; left|lia].
Defined.

(** ** C10: adding the registered connection again *)

Lemma iter_handle_fold (n : nat) (data : option value) (s : World) :
  Nat.iter n (handleIncomingMessage data) s =
  foldl (fun s d => handleIncomingMessage d s) s (repeat data n).
Proof.
  revert s. induction n as [|n IH]; intros s; [reflexivity|].
  rewrite Nat.iter_succ_r. simpl. apply IH.
Qed.

Lemma spec_enqueued_chunk (f : value) :
  spec_event_type f = VStr "chunk" -> spec_enqueued f = [f].
Proof. unfold spec_enqueued, spec_is_kind. intros ->. reflexivity. Qed.

Lemma foldl_enqueue_repeat (f : value) (n : nat) (Q : MQueue) :
  foldl (fun Q x => enqueue x Q) Q (concat (map (fun _ => [f]) (repeat f n))) =
  {| q_enqueued := q_enqueued Q ++ repeat f n; q_closed := q_closed Q |}.
Proof.
  revert Q. induction n as [|n IH]; intros Q; simpl.
  - rewrite app_nil_r. destruct Q; reflexivity.
  - rewrite IH. simpl. rewrite <- app_assoc. reflexivity.
Qed.

(** C10.  Adding again the very connection already registered for its
    account neither closes nor replaces it, but attaches a second set of
    [message], [close] and [error] listeners: each inbound frame is then
    handled once per registration (a [chunk] for a registered queue is
    enqueued once per registration), and its [close] event runs
    [_removeConnection] once per registration. *)
Theorem addConnection_same_instance (hb hc : bool) (w : nat) (a cur : Z) (s : World) :
  0 <= a -> connectionsByAuth s !! a = Some w ->
  let s' := addConnection w (VNum a) cur s in
  let k := count_listener LMessage (ws_listeners (ws_get w s)) in
  let kc := count_listener LClose (ws_listeners (ws_get w s)) in
  connectionsByAuth s' !! a = Some w /\
  ws_closeCalls (ws_get w s') = ws_closeCalls (ws_get w s) /\
  ws_listeners (ws_get w s') = ws_listeners (ws_get w s) ++ [LMessage; LClose; LError] /\
  (ws_closed (ws_get w s) = false ->
   (forall data, exec hb hc (OpSocketMessage w data) s' = Nat.iter (S k) (handleIncomingMessage data) s') /\
   (forall pageLive, exec hb hc (OpSocketClose w pageLive) s' =
      Nat.iter (S kc) (removeConnection hb w pageLive) (ws_update w ws_mark_closed s')) /\
   (forall f rid q Q, get_prop f "request_id" = Some (VStr rid) -> rid <> "" ->
      spec_event_type f = VStr "chunk" ->
      messageQueues s' !! rid = Some q -> queues s' !! q = Some Q ->
      queues (exec hb hc (OpSocketMessage w (Some f)) s') !! q =
      Some {| q_enqueued := q_enqueued Q ++ repeat f (S k); q_closed := q_closed Q |})).
Proof.
  intros Ha Hw. cbv zeta.
  destruct (addConnection_valid_maps w a cur s Ha) as (Hc & _).
  assert (Hg : ws_get w (addConnection w (VNum a) cur s) = ws_register a (ws_get w s)).
  { rewrite addConnection_valid_sockets by exact Ha. case_decide; [reflexivity|contradiction]. }
  assert (Hcnt : forall l, (count_listener l (ws_listeners (ws_get w s) ++ [LMessage; LClose; LError]) =
                           count_listener l (ws_listeners (ws_get w s)) + 1)%nat).
  { intros l. unfold count_listener. rewrite filter_app, length_app.
    destruct l; reflexivity. }
  split; [rewrite Hc, lookup_insert_eq; reflexivity|].
  split; [rewrite Hg; reflexivity|].
  split; [rewrite Hg; reflexivity|].
  intros Hclosed. cbn [exec]. rewrite Hg. cbn [ws_closed ws_register ws_listeners]. rewrite Hclosed.
  rewrite !Hcnt, !Nat.add_1_r.
  split; [reflexivity|]. split; [reflexivity|].
  intros f rid q Q Hr Hne Hk Hq HQ.
  rewrite iter_handle_fold.
  assert (Hall : Forall (fun f' => get_prop f' "request_id" = Some (VStr rid)) (repeat f (S (count_listener LMessage (ws_listeners (ws_get w s)))))).
  { apply Forall_forall. intros x Hx. apply list_elem_of_In, repeat_spec in Hx. subst. exact Hr. }
  (* the frames, seen as parsed frames *)
  assert (Hmap : forall n (s0 : World), foldl (fun s d => handleIncomingMessage d s) s0 (repeat (Some f) n) =
                 foldl (fun s f => handleIncomingMessage (Some f) s) s0 (repeat f n)).
  { induction n as [|n IH]; intros s0; [reflexivity|]. simpl. apply IH. }
  rewrite Hmap.
  destruct (route_frames_fold _ rid q Q _ Hne Hq HQ Hall) as (H1 & _).
  rewrite H1. f_equal.
  assert (Hm : map spec_enqueued (repeat f (S (count_listener LMessage (ws_listeners (ws_get w s))))) =
               map (fun _ => [f]) (repeat f (S (count_listener LMessage (ws_listeners (ws_get w s)))))).
  { apply map_ext_in. intros x Hx. apply repeat_spec in Hx. subst. apply spec_enqueued_chunk. exact Hk. }
  rewrite Hm. apply foldl_enqueue_repeat.
Qed.

Lemma addConnection_same_instance_witness :
  ws_listeners (ws_get 1 (addConnection 1 (VNum 0) (-1) one_connection_world))
  = [LMessage; LClose; LError; LMessage; LClose; LError].
Proof.
  pose proof (addConnection_same_instance false false 1 0 (-1) one_connection_world
                ltac:(lia) ltac:(vm_compute; reflexivity)) as Hth.
  cbv zeta in Hth. destruct Hth as (_ & _ & H & _). rewrite H. vm_compute. reflexivity.
Defined.

(** ** C7: queues dropped on reconnection of the current account *)




(** ** C4: queues at grace-period expiry *)

Lemma graceExpire_queues (hc : bool) (a cur : Z) (cb : CallbackCall) (s : World) :
  let s1 := if Z.eqb a cur then closeAllMessageQueues s else s in
  messageQueues (graceExpire hc a cur cb s) = messageQueues s1 /\
  queues (graceExpire hc a cur cb s) = queues s1.
Proof.
  cbv zeta. unfold graceExpire, graceFinish, recoveryFinally.
  destruct (hc && negb (default false (reconnectingAccounts (if Z.eqb a cur then closeAllMessageQueues s else s) !! a)));
    [destruct cb|]; unfold_world; split; reflexivity.
Qed.

Lemma resumeRecovery_queues (t : nat) (r : RaceOutcome) (s : World) :
  messageQueues (resumeRecovery t r s) = messageQueues s /\ queues (resumeRecovery t r s) = queues s.
Proof.
  unfold resumeRecovery, graceFinish, recoveryFinally.
  destruct (suspended s !! t); [destruct r|]; unfold_world; split; reflexivity.
Qed.

(** C4.  When the grace timer of account [a] fires, every registered
    queue is closed and the queue map cleared if [a] is the current account
    at that moment; otherwise the callback (before and after its [await])
    leaves the queue map and every queue object as they were. *)
Theorem grace_expiry_queues (hb hc : bool) (s : World) (t : nat) (a cur d : Z) (cb : CallbackCall) :
  timers s !! t = Some {| t_kind := TGrace a; t_delay := d |} ->
  let s' := exec hb hc (OpTimerFires t cur cb) s in
  (a = cur -> messageQueues s' = ∅ /\
     forall rid q Q, messageQueues s !! rid = Some q -> queues s !! q = Some Q ->
       queues s' !! q = Some (close_queue Q)) /\
  (a <> cur -> messageQueues s' = messageQueues s /\ queues s' = queues s) /\
  (forall t' r s2, messageQueues (resumeRecovery t' r s2) = messageQueues s2 /\
                   queues (resumeRecovery t' r s2) = queues s2).
Proof.
  intros Ht. cbv zeta. cbn [exec]. rewrite Ht.
  destruct (graceExpire_queues hc a cur cb (clearTimeout t s)) as [Hm Hq].
  split; [|split; [|exact resumeRecovery_queues]].
  - intros ->. rewrite Z.eqb_refl in Hm, Hq. rewrite closeAll_eq in Hm, Hq.
    unfold_world. split; [exact Hm|].
    intros rid q Q Hr HQ. rewrite Hq, close_queues_in by (eapply registered_queue_in_ids; exact Hr).
    rewrite HQ. reflexivity.
  - intros Hne. apply Z.eqb_neq in Hne. rewrite Hne in Hm, Hq. unfold_world. split; assumption.
Qed.

Lemma grace_expiry_queues_witness :
  messageQueues (exec false false (OpTimerFires 1 0 CbReturns) grace_world) = ∅.
Proof.
  pose proof (grace_expiry_queues false false grace_world 1 0 0 5000 CbReturns
                ltac:(vm_compute; reflexivity)) as Hth.
  cbv zeta in Hth. destruct Hth as [H _]. destruct (H eq_refl) as [Hm _]. exact Hm.
Defined.

(** ** C9 and C5: the grace-timer entry deleted after the [await] *)

Lemma stale_delete_trace_state :
  let s := run false true stale_delete_trace init in
  connectionsByAuth s !! 0 = None /\
  timers s !! 2%nat = Some {| t_kind := TGrace 0; t_delay := 5000 |} /\
  reconnectGraceTimers s !! 0 = None.
Proof. vm_compute. repeat split. Qed.

(** C9 (code bug).  The invariant "a grace-timer entry exists for [x] iff
    [x] has no registered connection and its loss is not finalized" fails
    in a reachable state: after [stale_delete_trace], account 0 has no
    connection and a pending grace timer, but no grace-timer entry. *)
Theorem grace_entry_invariant_broken :
  ~ (forall s, reachable false true s -> forall x,
       is_Some (reconnectGraceTimers s !! x) <->
       (connectionsByAuth s !! x = None /\ loss_pending s x)).
Proof.
  intros H.
  destruct (H (run false true stale_delete_trace init) (ex_intro _ _ eq_refl) 0) as [_ H2].
  destruct stale_delete_trace_state as (Hc & Ht & Hg).
  destruct H2 as [t Hs].
  - split; [exact Hc|]. left. exists 2%nat, 5000. exact Ht.
  - rewrite Hg in Hs. discriminate.
Qed.

(** C5 (code bug).  Continuing [stale_delete_trace]: queue [r1] is
    created and connection 3 registers for account 0 (the current account)
    strictly before grace timer 2 fires (at 10 s, say).  The timer is not
    cancelled: it fires at 12 s, force-closes queue [r1] and calls the
    recovery callback for account 0 although account 0 is connected. *)
Theorem reconnect_does_not_cancel_grace_timer :
  let s := run false true (stale_delete_trace ++ [OpCreateMessageQueue "r1"; OpAddConnection 3 (VNum 0) 0]) init in
  let s' := exec false true (OpTimerFires 2 0 CbReturns) s in
  connectionsByAuth s !! 0 = Some 3%nat /\
  timers s !! 2%nat = Some {| t_kind := TGrace 0; t_delay := 5000 |} /\
  connectionsByAuth s' !! 0 = Some 3%nat /\
  outputs s' = outputs s ++ [OutRecover 0 (Some true)] /\
  messageQueues s !! "r1" = Some 3%nat /\ messageQueues s' = ∅ /\
  queues s' !! 3%nat = Some {| q_enqueued := []; q_closed := true |}.
Proof.
  vm_compute. repeat split.
Qed.

(** ** C6: at most one recovery attempt in flight per account *)

Lemma quiet_refl (s : World) : quiet s s.
Proof.
  refine (conj eq_refl (conj eq_refl (conj (le_n _) (conj (fun _ _ => eq_refl) _)))).
  intros a t H. left. exact H.
Qed.

Lemma quiet_trans (s1 s2 s3 : World) : quiet s1 s2 -> quiet s2 s3 -> quiet s1 s3.
Proof.
  intros (R1 & S1 & N1 & T1 & G1) (R2 & S2 & N2 & T2 & G2).
  refine (conj _ (conj _ (conj _ (conj _ _)))).
  - congruence.
  - congruence.
  - lia.
  - intros t Ht. rewrite T2 by (rewrite S1; exact Ht). apply T1, Ht.
  - intros a t Ht. destruct (G2 a t Ht) as [H|H].
    + destruct (G1 a t H) as [H'|H']; [left; exact H' | right; lia].
    + right; lia.
Qed.

Lemma core_quiet (s s' : World) : core s' = core s -> quiet s s'.
Proof.
  unfold core. intros H. injection H as HR HS HT HG HN.
  refine (conj HR (conj HS (conj _ (conj _ _)))).
  - lia.
  - intros t _. rewrite HT. reflexivity.
  - intros a t Ht. left. rewrite <- HG. exact Ht.
Qed.

Lemma quiet_emit (n : string) (s s' : World) : quiet s s' -> quiet s (emit n s').
Proof. intros H. eapply quiet_trans; [exact H|]. apply core_quiet. reflexivity. Qed.

Lemma quiet_inv (s s' : World) : recovery_inv s -> quiet s s' -> recovery_inv s'.
Proof.
  intros (Ia & Ib & Ic & Id & Ij1 & Ij2) (R & S & N & T & G).
  unfold recovery_inv. rewrite R, S.
  refine (conj Ia (conj Ib (conj Ic (conj _ (conj _ _))))).
  - intros t a H. rewrite T by (eexists; exact H). apply Id, H.
  - intros t a H. specialize (Ij1 t a H). lia.
  - intros a t H. destruct (G a t H) as [H'|H'].
    + destruct (Ij2 a t H') as [H1 H2]. split; [lia | exact H2].
    + split; [lia|]. destruct (suspended s !! t) as [x|] eqn:E; [|reflexivity].
      specialize (Ij1 t x E). lia.
Qed.

Lemma quiet_iter (f : World -> World) (n : nat) (s : World) :
  (forall s, recovery_inv s -> quiet s (f s)) -> recovery_inv s -> quiet s (Nat.iter n f s).
Proof.
  intros Hf. induction n as [|n IH]; intros Hs; [apply quiet_refl|].
  rewrite Nat.iter_succ. specialize (IH Hs).
  eapply quiet_trans; [exact IH|]. apply Hf. eapply quiet_inv; eauto.
Qed.

Lemma core_closeAll (s : World) : core (closeAllMessageQueues s) = core s.
Proof. unfold closeAllMessageQueues. destruct (_ <? _)%nat; reflexivity. Qed.

Lemma core_routeMessage (m : value) (q : nat) (s : World) : core (routeMessage m q s) = core s.
Proof.
  unfold routeMessage. destruct (_ || _); [reflexivity|].
  destruct (strict_eq_str _ _); reflexivity.
Qed.

Lemma core_handle (d : option value) (s : World) : core (handleIncomingMessage d s) = core s.
Proof.
  unfold handleIncomingMessage, handleIncomingMessage_try.
  destruct d as [p|]; [|reflexivity].
  destruct (get_prop p "request_id") as [rid|]; [|reflexivity].
  destruct (negb (truthy rid)); [reflexivity|].
  destruct (queue_lookup rid s); [apply core_routeMessage|reflexivity].
Qed.

Lemma core_replaceExisting (a : Z) (w : nat) (s : World) : core (replaceExisting a w s) = core s.
Proof.
  unfold replaceExisting. destruct (connectionsByAuth s !! a); [|reflexivity].
  destruct (Nat.eqb _ _); reflexivity.
Qed.

Lemma clearTimeout_quiet (t : nat) (s : World) : suspended s !! t = None -> quiet s (clearTimeout t s).
Proof.
  intros Ht. refine (conj eq_refl (conj eq_refl (conj (le_n _) (conj _ _)))).
  - intros t' [a Ha]. cbn [clearTimeout timers set_timers]. apply lookup_delete_ne. congruence.
  - intros a t' H. left. exact H.
Qed.

Lemma delete_grace_quiet (a : Z) (s : World) :
  quiet s (set_reconnectGraceTimers (delete a (reconnectGraceTimers s)) s).
Proof.
  refine (conj eq_refl (conj eq_refl (conj (le_n _) (conj (fun _ _ => eq_refl) _)))).
  intros a' t H. left. cbn [reconnectGraceTimers set_reconnectGraceTimers] in H.
  apply lookup_delete_Some in H. tauto.
Qed.

Lemma clear_grace_quiet (a : Z) (t : nat) (s : World) :
  recovery_inv s -> reconnectGraceTimers s !! a = Some t ->
  quiet s (set_reconnectGraceTimers (delete a (reconnectGraceTimers s)) (clearTimeout t s)).
Proof.
  intros (_ & _ & _ & _ & _ & Ij2) Ht.
  eapply quiet_trans; [apply clearTimeout_quiet, (Ij2 a t Ht)|].
  apply (delete_grace_quiet a (clearTimeout t s)).
Qed.

Lemma removeConnection_quiet (hb : bool) (w : nat) (pageLive : bool) (s : World) :
  recovery_inv s -> quiet s (removeConnection hb w pageLive s).
Proof.
  intros Hs. unfold removeConnection.
  destruct (ws_authIndex (ws_get w s)) as [a|]; [|apply core_quiet; reflexivity].
  set (s1 := set_connectionsByAuth (delete a (connectionsByAuth s)) s).
  assert (Q1 : quiet s s1) by (apply core_quiet; reflexivity).
  assert (I1 : recovery_inv s1) by (eapply quiet_inv; eauto).
  destruct (hb && negb pageLive).
  - apply quiet_emit. destruct (reconnectGraceTimers s1 !! a) as [t|] eqn:Ht; [|exact Q1].
    eapply quiet_trans; [exact Q1|]. apply clear_grace_quiet; assumption.
  - set (s2 := match reconnectGraceTimers s1 !! a with Some t => clearTimeout t s1 | None => s1 end).
    assert (Q2 : quiet s s2).
    { unfold s2. destruct (reconnectGraceTimers s1 !! a) as [t|] eqn:Ht; [|exact Q1].
      eapply quiet_trans; [exact Q1|]. apply clearTimeout_quiet.
      destruct I1 as (_ & _ & _ & _ & _ & Ij2). apply (Ij2 a t Ht). }
    assert (I2 : recovery_inv s2) by (eapply quiet_inv; eauto).
    cbn [setTimeout]. apply quiet_emit.
    eapply quiet_trans; [exact Q2|].
    destruct I2 as (_ & _ & _ & _ & J1 & _).
    refine (conj eq_refl (conj eq_refl (conj _ (conj _ _)))).
    + unfold_world. lia.
    + intros t [x Hx]. unfold_world. apply lookup_insert_ne. intros Heq.
      specialize (J1 _ _ Hx). lia.
    + intros a' t H. unfold_world. destruct (decide (a = a')) as [<-|Hne].
      * rewrite lookup_insert_eq in H. injection H as <-. right. lia.
      * rewrite lookup_insert_ne in H by exact Hne. left. exact H.
Qed.

Lemma clearGraceOnReconnect_quiet (a cur : Z) (s : World) :
  recovery_inv s -> quiet s (clearGraceOnReconnect a cur s).
Proof.
  intros Hs. unfold clearGraceOnReconnect.
  destruct (reconnectGraceTimers s !! a) as [t|] eqn:Ht; [|apply quiet_refl].
  pose proof (clear_grace_quiet a t s Hs Ht) as Q.
  destruct (_ && _); [|exact Q].
  eapply quiet_trans; [exact Q|]. apply core_quiet, core_closeAll.
Qed.

Lemma addConnection_quiet (w : nat) (v : value) (cur : Z) (s : World) :
  recovery_inv s -> quiet s (addConnection w v cur s).
Proof.
  intros Hs. unfold addConnection.
  destruct (rejectAuthIndex v); [apply core_quiet; reflexivity|].
  set (a := match v with VNum a => a | _ => 0 end).
  assert (Q1 : quiet s (replaceExisting a w s)) by apply core_quiet, core_replaceExisting.
  assert (Q2 : quiet s (clearGraceOnReconnect a cur (replaceExisting a w s))).
  { eapply quiet_trans; [exact Q1|]. apply clearGraceOnReconnect_quiet.
    eapply quiet_inv; eauto. }
  eapply quiet_trans; [exact Q2|]. apply core_quiet. reflexivity.
Qed.

Lemma closeConnectionByAuth_quiet (a : Z) (s : World) :
  recovery_inv s -> quiet s (closeConnectionByAuth a s).
Proof.
  intros Hs. unfold closeConnectionByAuth.
  destruct (connectionsByAuth s !! a) as [w|]; [|apply quiet_refl].
  set (s2 := set_connectionsByAuth _ _).
  assert (Q : quiet s s2) by (apply core_quiet; reflexivity).
  destruct (reconnectGraceTimers s2 !! a) as [t|] eqn:Ht; [|exact Q].
  eapply quiet_trans; [exact Q|]. apply clear_grace_quiet; [|exact Ht].
  eapply quiet_inv; eauto.
Qed.

Lemma createMessageQueue_quiet (rid : string) (s : World) : quiet s (createMessageQueue rid s).
Proof.
  refine (conj eq_refl (conj eq_refl (conj _ (conj (fun _ _ => eq_refl) _)))).
  - cbn. lia.
  - intros a t H. left. exact H.
Qed.

Lemma core_removeMessageQueue (rid : string) (s : World) : core (removeMessageQueue rid s) = core s.
Proof. unfold removeMessageQueue. destruct (messageQueues s !! rid); reflexivity. Qed.

(** The operations other than a timer firing and a callback settling
    leave the recovery state alone. *)
Lemma exec_quiet (hb hc : bool) (op : Op) (s : World) :
  recovery_inv s ->
  match op with OpTimerFires _ _ _ | OpCallbackSettles _ _ => False | _ => True end ->
  quiet s (exec hb hc op s).
Proof.
  intros Hs Hop. destruct op; cbn [exec]; try contradiction.
  - apply addConnection_quiet, Hs.
  - destruct (ws_closed _); [apply quiet_refl|].
    apply quiet_iter; [|exact Hs]. intros s' _. apply core_quiet, core_handle.
  - destruct (ws_closed _); [apply quiet_refl|].
    eapply quiet_trans; [apply (core_quiet s (ws_update w ws_mark_closed s)); reflexivity|].
    apply quiet_iter; [intros s' Hs'; apply removeConnection_quiet, Hs'|].
    eapply quiet_inv; [exact Hs|]. apply core_quiet. reflexivity.
  - apply closeConnectionByAuth_quiet, Hs.
  - apply createMessageQueue_quiet.
  - apply core_quiet, core_removeMessageQueue.
  - apply core_quiet, core_closeAll.
Qed.

(** The continuation of the callback suspended with timeout timer [t]. *)
Lemma resumeRecovery_spec (t : nat) (r : RaceOutcome) (s : World) (a : Z) :
  suspended s !! t = Some a ->
  reconnectingAccounts (resumeRecovery t r s) = delete a (reconnectingAccounts s) /\
  suspended (resumeRecovery t r s) = delete t (suspended s) /\
  timers (resumeRecovery t r s) = delete t (timers s) /\
  reconnectGraceTimers (resumeRecovery t r s) = delete a (reconnectGraceTimers s) /\
  next_id (resumeRecovery t r s) = next_id s /\
  outputs (resumeRecovery t r s) =
    outputs s ++ [OutLog (match r with
                          | RaceResolved => LogReconnectCompleted a
                          | RaceRejected => LogReconnectFailed a end);
                  OutEmit "connectionLost"].
Proof.
  intros H. unfold resumeRecovery. rewrite H. unfold graceFinish, recoveryFinally.
  unfold_world. destruct r; repeat split.
  all: unfold_world; rewrite <- app_assoc; reflexivity.
Qed.

Lemma resumeRecovery_clearTimeout (t : nat) (r : RaceOutcome) (s : World) (a : Z) :
  suspended s !! t = Some a -> resumeRecovery t r (clearTimeout t s) = resumeRecovery t r s.
Proof.
  intros H. unfold resumeRecovery. cbn [clearTimeout set_timers suspended]. rewrite H.
  unfold graceFinish, recoveryFinally.
  destruct r; unfold_world;
    unfold set_reconnectGraceTimers, set_reconnectingAccounts, set_suspended, set_timers,
      set_outputs, clearTimeout, emit, log, output; unfold_world;
    rewrite delete_delete_eq; reflexivity.
Qed.

Lemma resumeRecovery_inv (t : nat) (r : RaceOutcome) (s : World) (a : Z) :
  recovery_inv s -> suspended s !! t = Some a -> recovery_inv (resumeRecovery t r s).
Proof.
  intros (Ia & Ib & Ic & Id & Ij1 & Ij2) H.
  destruct (resumeRecovery_spec t r s a H) as (ER & ES & ET & EG & EN & _).
  unfold recovery_inv. rewrite ER, ES, ET, EG, EN.
  refine (conj _ (conj _ (conj _ (conj _ (conj _ _))))).
  - intros a'. destruct (decide (a = a')) as [<-|Hne].
    + rewrite lookup_delete_eq. split; [discriminate|].
      intros [t' Ht']. apply lookup_delete_Some in Ht' as [Hne Ht'].
      exfalso. apply Hne. exact (Ic t t' a H Ht').
    + rewrite lookup_delete_ne by exact Hne. rewrite Ia. split; intros [t' Ht'].
      * exists t'. apply lookup_delete_Some. split; [|exact Ht']. intros <-. congruence.
      * apply lookup_delete_Some in Ht' as [_ Ht']. eauto.
  - intros a' b Hb. apply lookup_delete_Some in Hb as [_ Hb]. eauto.
  - intros t1 t2 x H1 H2. apply lookup_delete_Some in H1 as [_ H1].
    apply lookup_delete_Some in H2 as [_ H2]. eauto.
  - intros t' x Hx. apply lookup_delete_Some in Hx as [Hne Hx].
    rewrite lookup_delete_ne by exact Hne. eauto.
  - intros t' x Hx. apply lookup_delete_Some in Hx as [_ Hx]. eauto.
  - intros a' t' Ht'. apply lookup_delete_Some in Ht' as [_ Ht'].
    destruct (Ij2 a' t' Ht') as [Hl Hn]. split; [exact Hl|].
    apply lookup_delete_None. right. exact Hn.
Qed.

Lemma graceFinish_quiet (a : Z) (s : World) : quiet s (graceFinish a s).
Proof.
  unfold graceFinish. eapply quiet_trans; [apply quiet_emit, quiet_refl|].
  apply (delete_grace_quiet a (emit "connectionLost" s)).
Qed.

(** The grace timer [t] of account [a] fires. *)
Lemma graceExpire_fire (hc : bool) (t : nat) (a cur d : Z) (cb : CallbackCall) (s : World) :
  recovery_inv s -> timers s !! t = Some {| t_kind := TGrace a; t_delay := d |} ->
  let s' := graceExpire hc a cur cb (clearTimeout t s) in
  recovery_inv s' /\
  (if hc && negb (default false (reconnectingAccounts s !! a)) then
     outputs s' = outputs s ++ OutRecover a (Some true) ::
       match cb with
       | CbThrows => [OutLog (LogReconnectFailed a); OutEmit "connectionLost"]
       | CbReturns => []
       end /\
     (cb = CbThrows -> reconnectingAccounts s' !! a = None) /\
     (cb = CbReturns -> exists t', suspended s' !! t' = Some a /\
        timers s' !! t' = Some {| t_kind := TRecoveryTimeout a; t_delay := 55000 |})
   else outputs s' = outputs s ++ [OutEmit "connectionLost"]).
Proof.
  intros Hs Ht.
  assert (Hn : suspended s !! t = None).
  { destruct (suspended s !! t) as [x|] eqn:E; [|reflexivity].
    destruct Hs as (_ & _ & _ & Id & _). rewrite (Id t x E) in Ht. discriminate. }
  pose proof (quiet_inv _ _ Hs (clearTimeout_quiet t s Hn)) as I0.
  cbv zeta. unfold graceExpire. cbv zeta.
  set (s1 := if Z.eqb a cur then closeAllMessageQueues (clearTimeout t s) else clearTimeout t s).
  assert (C1 : core s1 = core (clearTimeout t s))
    by (unfold s1; destruct (Z.eqb a cur); [apply core_closeAll|reflexivity]).
  assert (O1 : outputs s1 = outputs s)
    by (unfold s1; destruct (Z.eqb a cur); [rewrite closeAll_outputs|]; reflexivity).
  assert (I1 : recovery_inv s1) by (eapply quiet_inv; [exact I0|apply core_quiet, C1]).
  assert (R1 : reconnectingAccounts s1 = reconnectingAccounts s)
    by (unfold core in C1; injection C1 as -> _ _ _ _; reflexivity).
  clearbody s1. clear C1 I0.
  rewrite R1.
  assert (Hfin : forall s2, quiet s1 s2 -> recovery_inv (graceFinish a s2)).
  { intros s2 Q. eapply quiet_inv; [exact I1|]. eapply quiet_trans; [exact Q|apply graceFinish_quiet]. }
  destruct (reconnectingAccounts s !! a) as [b|] eqn:Hf.
  { assert (b = true) as -> by (destruct Hs as (_ & Ib & _); eauto).
    rewrite andb_false_r. split; [apply Hfin, quiet_refl|].
    change (outputs s1 ++ [OutEmit "connectionLost"] = outputs s ++ [OutEmit "connectionLost"]).
    rewrite O1. reflexivity. }
  destruct hc; cbn [andb negb default].
  2:{ split; [apply Hfin, quiet_refl|].
      change (outputs s1 ++ [OutEmit "connectionLost"] = outputs s ++ [OutEmit "connectionLost"]).
      rewrite O1. reflexivity. }
  assert (Hf1 : reconnectingAccounts s1 !! a = None) by (rewrite R1; exact Hf).
  destruct cb.
  - (* the callback returned a promise: suspended, raced against the timeout *)
    cbn [setTimeout]. unfold recovery_inv. unfold_world.
    rewrite lookup_insert_eq, <- R1.
    destruct I1 as (Ia & Ib & Ic & Id & Ij1 & Ij2).
    assert (Hfresh : suspended s1 !! next_id s1 = None).
    { destruct (suspended s1 !! next_id s1) as [x|] eqn:E; [|reflexivity].
      specialize (Ij1 _ _ E). lia. }
    assert (Hnone : forall t', suspended s1 !! t' <> Some a).
    { intros t' E. assert (Hx : reconnectingAccounts s1 !! a = Some true) by (apply Ia; eauto).
      congruence. }
    refine (conj (conj _ (conj _ (conj _ (conj _ (conj _ _))))) (conj _ (conj _ _))).
    + intros a'. destruct (decide (a = a')) as [<-|Hne].
      * rewrite lookup_insert_eq. split; [intros _; exists (next_id s1); apply lookup_insert_eq|reflexivity].
      * rewrite lookup_insert_ne by exact Hne. rewrite Ia. split; intros [t' Ht'].
        -- exists t'. rewrite lookup_insert_ne; [exact Ht'|]. intros <-. congruence.
        -- exists t'. destruct (decide (next_id s1 = t')) as [<-|Htne].
           ++ rewrite lookup_insert_eq in Ht'. congruence.
           ++ rewrite lookup_insert_ne in Ht' by exact Htne. exact Ht'.
    + intros a' b' Hb. destruct (decide (a = a')) as [<-|Hne].
      * rewrite lookup_insert_eq in Hb. congruence.
      * rewrite lookup_insert_ne in Hb by exact Hne. eauto.
    + intros t1 t2 x H1 H2.
      destruct (decide (next_id s1 = t1)) as [<-|H1ne]; destruct (decide (next_id s1 = t2)) as [<-|H2ne].
      * reflexivity.
      * rewrite lookup_insert_eq in H1. rewrite lookup_insert_ne in H2 by exact H2ne.
        injection H1 as <-. exfalso. eapply Hnone; eauto.
      * rewrite lookup_insert_eq in H2. rewrite lookup_insert_ne in H1 by exact H1ne.
        injection H2 as <-. exfalso. eapply Hnone; eauto.
      * rewrite lookup_insert_ne in H1 by exact H1ne. rewrite lookup_insert_ne in H2 by exact H2ne. eauto.
    + intros t' x Hx. destruct (decide (next_id s1 = t')) as [<-|Hne].
      * rewrite lookup_insert_eq in Hx. injection Hx as <-. apply lookup_insert_eq.
      * rewrite lookup_insert_ne in Hx by exact Hne. rewrite lookup_insert_ne by exact Hne. eauto.
    + intros t' x Hx. destruct (decide (next_id s1 = t')) as [<-|Hne]; [lia|].
      rewrite lookup_insert_ne in Hx by exact Hne. specialize (Ij1 _ _ Hx). lia.
    + intros a' t' Ht'. destruct (Ij2 a' t' Ht') as [Hl Hs']. split; [lia|].
      rewrite lookup_insert_ne by lia. exact Hs'.
    + rewrite O1. reflexivity.
    + discriminate.
    + intros _. exists (next_id s1). split; apply lookup_insert_eq.
  - (* the callback threw synchronously: caught, flag cleared *)
    set (s2 := recoveryFinally None a _).
    assert (C2 : core s2 = core s1).
    { unfold s2, core, recoveryFinally. unfold_world. rewrite delete_insert_id by exact Hf. rewrite R1. reflexivity. }
    split; [apply Hfin, core_quiet, C2|].
    refine (conj _ (conj (fun _ => _) _)); [| |discriminate].
    + unfold graceFinish, s2, recoveryFinally. unfold_world.
      rewrite lookup_insert_eq, O1, <- !app_assoc. reflexivity.
    + change (reconnectingAccounts s2 !! a = None).
      rewrite (f_equal (fun c => fst (fst (fst (fst c)))) C2
                 : reconnectingAccounts s2 = reconnectingAccounts s1).
      exact Hf1.
Qed.

Lemma exec_grace (hb hc : bool) (t : nat) (a cur d : Z) (cb : CallbackCall) (s : World) :
  timers s !! t = Some {| t_kind := TGrace a; t_delay := d |} ->
  exec hb hc (OpTimerFires t cur cb) s = graceExpire hc a cur cb (clearTimeout t s).
Proof. intros H. cbn [exec]. rewrite H. reflexivity. Qed.

Lemma exec_timeout (hb hc : bool) (t : nat) (a cur : Z) (cb : CallbackCall) (s : World) :
  recovery_inv s -> suspended s !! t = Some a ->
  exec hb hc (OpTimerFires t cur cb) s = resumeRecovery t RaceRejected s.
Proof.
  intros (_ & _ & _ & Id & _) H. cbn [exec]. rewrite (Id t a H).
  apply (resumeRecovery_clearTimeout t RaceRejected s a H).
Qed.

Lemma exec_inv (hb hc : bool) (op : Op) (s : World) :
  recovery_inv s -> recovery_inv (exec hb hc op s).
Proof.
  intros Hs. destruct op as [| | | | | | |t cur cb|t r];
    try (eapply quiet_inv; [exact Hs|apply exec_quiet; [exact Hs|exact I]]).
  - destruct (timers s !! t) as [[[a|a] d]|] eqn:Ht.
    + rewrite (exec_grace hb hc t a cur d cb s Ht).
      exact (proj1 (graceExpire_fire hc t a cur d cb s Hs Ht)).
    + destruct (suspended s !! t) as [x|] eqn:Hx.
      * rewrite (exec_timeout hb hc t x cur cb s Hs Hx). exact (resumeRecovery_inv t _ s x Hs Hx).
      * cbn [exec]. rewrite Ht. unfold resumeRecovery. cbn [clearTimeout set_timers suspended].
        rewrite Hx. eapply quiet_inv; [exact Hs|]. apply clearTimeout_quiet, Hx.
    + cbn [exec]. rewrite Ht. exact Hs.
  - cbn [exec]. destruct (suspended s !! t) as [x|] eqn:Hx.
    + exact (resumeRecovery_inv t r s x Hs Hx).
    + unfold resumeRecovery. rewrite Hx. exact Hs.
Qed.

Lemma init_inv : recovery_inv init.
Proof.
  unfold recovery_inv, init. cbn [reconnectingAccounts suspended timers reconnectGraceTimers next_id].
  refine (conj _ (conj _ (conj _ (conj _ (conj _ _))))).
  - intros a. rewrite lookup_empty. split; [discriminate|]. intros [t H].
    rewrite lookup_empty in H. discriminate.
  - intros a b H. rewrite lookup_empty in H. discriminate.
  - intros t1 t2 a H. rewrite lookup_empty in H. discriminate.
  - intros t a H. rewrite lookup_empty in H. discriminate.
  - intros t a H. rewrite lookup_empty in H. discriminate.
  - intros a t H. rewrite lookup_empty in H. discriminate.
Qed.

Lemma run_inv (hb hc : bool) (ops : list Op) (s : World) :
  recovery_inv s -> recovery_inv (run hb hc ops s).
Proof.
  revert s. induction ops as [|op ops IH]; intros s Hs; [exact Hs|].
  apply IH, exec_inv, Hs.
Qed.

(** C6.  In every state reachable by the registry's operations:
    the reconnecting flag of [a] is set (only ever to [true]) exactly
    while a recovery attempt of [a] is in flight, and there is at most
    one in flight per account, each raced against its pending 55 s timeout
    timer.  When a grace timer of [a] fires, the callback is invoked
    ([OutRecover]) only if a callback is configured and [a] is not marked
    reconnecting, and it observes the flag already set; a callback that
    throws is caught, logged and the flag cleared; otherwise the only
    output is [connectionLost].  An attempt completes on success, failure
    or timeout by logging, clearing the flag and emitting [connectionLost],
    with no error out of the timer callback; with the flag cleared, the
    next grace expiry of [a] starts a new attempt. *)
Theorem recovery_single_flight (hb hc : bool) (ops : list Op) :
  let s := run hb hc ops init in
  (forall a, reconnectingAccounts s !! a = Some true <-> exists t, suspended s !! t = Some a) /\
  (forall a b, reconnectingAccounts s !! a = Some b -> b = true) /\
  (forall t1 t2 a, suspended s !! t1 = Some a -> suspended s !! t2 = Some a -> t1 = t2) /\
  (forall t a, suspended s !! t = Some a ->
     timers s !! t = Some {| t_kind := TRecoveryTimeout a; t_delay := 55000 |}) /\
  (forall t a d cur cb, timers s !! t = Some {| t_kind := TGrace a; t_delay := d |} ->
     let s' := exec hb hc (OpTimerFires t cur cb) s in
     if hc && negb (default false (reconnectingAccounts s !! a)) then
       outputs s' = outputs s ++ OutRecover a (Some true) ::
         match cb with
         | CbThrows => [OutLog (LogReconnectFailed a); OutEmit "connectionLost"]
         | CbReturns => []
         end /\
       (cb = CbThrows -> reconnectingAccounts s' !! a = None) /\
       (cb = CbReturns -> exists t', suspended s' !! t' = Some a /\
          timers s' !! t' = Some {| t_kind := TRecoveryTimeout a; t_delay := 55000 |})
     else outputs s' = outputs s ++ [OutEmit "connectionLost"]) /\
  (forall t a, suspended s !! t = Some a ->
     (forall r, let s' := exec hb hc (OpCallbackSettles t r) s in
        reconnectingAccounts s' !! a = None /\ suspended s' = delete t (suspended s) /\
        outputs s' = outputs s ++ [OutLog (match r with
                                          | RaceResolved => LogReconnectCompleted a
                                          | RaceRejected => LogReconnectFailed a end);
                                   OutEmit "connectionLost"]) /\
     (forall cur cb, let s' := exec hb hc (OpTimerFires t cur cb) s in
        reconnectingAccounts s' !! a = None /\ suspended s' = delete t (suspended s) /\
        outputs s' = outputs s ++ [OutLog (LogReconnectFailed a); OutEmit "connectionLost"])).
Proof.
  cbv zeta. pose proof (run_inv hb hc ops init init_inv) as Hs.
  set (s := run hb hc ops init) in *.
  pose proof Hs as (Ia & Ib & Ic & Id & _).
  refine (conj Ia (conj Ib (conj Ic (conj Id (conj _ _))))).
  - intros t a d cur cb Ht. rewrite (exec_grace hb hc t a cur d cb s Ht).
    exact (proj2 (graceExpire_fire hc t a cur d cb s Hs Ht)).
  - intros t a H. split.
    + intros r. change (exec hb hc (OpCallbackSettles t r) s) with (resumeRecovery t r s).
      destruct (resumeRecovery_spec t r s a H) as (ER & ES & _ & _ & _ & EO).
      rewrite ER, ES, EO. split; [apply lookup_delete_eq|split; reflexivity].
    + intros cur cb. rewrite (exec_timeout hb hc t a cur cb s Hs H).
      destruct (resumeRecovery_spec t RaceRejected s a H) as (ER & ES & _ & _ & _ & EO).
      rewrite ER, ES, EO. split; [apply lookup_delete_eq|split; reflexivity].
Qed.

(* ------------------------------------------------------------------ *)
(** ** The queue bookkeeping: createMessageQueue, removeMessageQueue,
    closeAllMessageQueues *)

Lemma qframe_refl (s : World) : qframe s s.
Proof. refine (conj eq_refl (conj (le_n _) (fun _ => eq_refl))). Qed.

Lemma qframe_trans (s1 s2 s3 : World) : qframe s1 s2 -> qframe s2 s3 -> qframe s1 s3.
Proof.
  intros (M1 & N1 & C1) (M2 & N2 & C2).
  refine (conj (eq_trans M2 M1) (conj _ (fun q => eq_trans (C2 q) (C1 q)))). lia.
Qed.

Lemma qcore_qframe (s s' : World) : qcore s' = qcore s -> qframe s s'.
Proof.
  unfold qcore. intros H. injection H as HM HQ HN.
  refine (conj HM (conj _ _)); [lia|]. intros q. rewrite HQ. reflexivity.
Qed.

Lemma qframe_inv (s s' : World) : queue_inv s -> qframe s s' -> queue_inv s'.
Proof.
  intros (Q1 & Q2 & Q3) (M & N & C). unfold queue_inv. rewrite M.
  refine (conj _ (conj Q2 _)).
  - intros rid q H. destruct (Q1 rid q H) as (Hl & Q & HQ & HC). split; [lia|].
    specialize (C q). rewrite HQ in C. cbn in C.
    destruct (queues s' !! q) as [Q'|]; [|discriminate].
    exists Q'. split; [reflexivity|]. injection C as C. rewrite C. exact HC.
  - intros q Hq. specialize (C q).
    assert (is_Some (queues s !! q)) as Hs.
    { destruct Hq as [Q' HQ']. rewrite HQ' in C. destruct (queues s !! q); [eauto|discriminate]. }
    specialize (Q3 q Hs). lia.
Qed.

Lemma qinv_iter (f : World -> World) (n : nat) (s : World) :
  (forall s, queue_inv s -> queue_inv (f s)) -> queue_inv s -> queue_inv (Nat.iter n f s).
Proof.
  intros Hf Hs. induction n as [|n IH]; [exact Hs|]. rewrite Nat.iter_succ. apply Hf, IH.
Qed.

Lemma close_queues_is_Some (ids : list nat) (qs : gmap nat MQueue) (q : nat) :
  is_Some (close_queues ids qs !! q) <-> is_Some (qs !! q).
Proof.
  destruct (decide (q ∈ ids)) as [Hi|Hi].
  - rewrite close_queues_in by exact Hi. apply fmap_is_Some.
  - rewrite close_queues_notin by exact Hi. reflexivity.
Qed.

Lemma qinv_closeAll (s : World) : queue_inv s -> queue_inv (closeAllMessageQueues s).
Proof.
  intros (_ & _ & Q3). rewrite closeAll_eq. unfold queue_inv. unfold_world.
  refine (conj _ (conj _ _)).
  - intros rid q H. rewrite lookup_empty in H. discriminate.
  - intros rid1 rid2 q H. rewrite lookup_empty in H. discriminate.
  - intros q Hq. apply close_queues_is_Some in Hq. exact (Q3 q Hq).
Qed.

Lemma qinv_create (rid : string) (s : World) : queue_inv s -> queue_inv (createMessageQueue rid s).
Proof.
  intros (Q1 & Q2 & Q3). unfold createMessageQueue, queue_inv. unfold_world.
  refine (conj _ (conj _ _)).
  - intros rid' q H. destruct (decide (rid = rid')) as [<-|Hne].
    + rewrite lookup_insert_eq in H. injection H as <-. split; [lia|].
      exists fresh_queue. rewrite lookup_insert_eq. split; reflexivity.
    + rewrite lookup_insert_ne in H by exact Hne.
      destruct (Q1 rid' q H) as (Hl & Q & HQ & HC). split; [lia|].
      exists Q. rewrite lookup_insert_ne by lia. split; [exact HQ|exact HC].
  - intros r1 r2 q H1 H2.
    destruct (decide (rid = r1)) as [<-|H1ne]; destruct (decide (rid = r2)) as [<-|H2ne].
    + reflexivity.
    + rewrite lookup_insert_eq in H1. rewrite lookup_insert_ne in H2 by exact H2ne.
      injection H1 as <-. destruct (Q1 r2 _ H2) as [Hl _]. lia.
    + rewrite lookup_insert_eq in H2. rewrite lookup_insert_ne in H1 by exact H1ne.
      injection H2 as <-. destruct (Q1 r1 _ H1) as [Hl _]. lia.
    + rewrite lookup_insert_ne in H1 by exact H1ne. rewrite lookup_insert_ne in H2 by exact H2ne. eauto.
  - intros q Hq. destruct (decide (next_id s = q)) as [<-|Hne]; [lia|].
    rewrite lookup_insert_ne in Hq by exact Hne. specialize (Q3 q Hq). lia.
Qed.

Lemma qinv_remove (rid : string) (s : World) : queue_inv s -> queue_inv (removeMessageQueue rid s).
Proof.
  intros (Q1 & Q2 & Q3). unfold removeMessageQueue.
  destruct (messageQueues s !! rid) as [q|] eqn:Hr; [|exact (conj Q1 (conj Q2 Q3))].
  unfold queue_inv. unfold_world. refine (conj _ (conj _ _)).
  - intros rid' q' H. apply lookup_delete_Some in H as [Hne H].
    destruct (Q1 rid' q' H) as (Hl & Q & HQ & HC). split; [exact Hl|].
    exists Q. rewrite lookup_alter_ne; [split; [exact HQ|exact HC]|].
    intros <-. apply Hne. exact (Q2 _ _ _ Hr H).
  - intros r1 r2 q' H1 H2. apply lookup_delete_Some in H1 as [_ H1].
    apply lookup_delete_Some in H2 as [_ H2]. eauto.
  - intros q' Hq. apply lookup_alter_is_Some in Hq. exact (Q3 q' Hq).
Qed.

Lemma alter_enqueue_closed (x : value) (q q' : nat) (qs : gmap nat MQueue) :
  q_closed <$> alter (enqueue x) q qs !! q' = q_closed <$> qs !! q'.
Proof.
  rewrite lookup_alter. destruct (decide (q = q')) as [<-|_]; [|reflexivity].
  destruct (qs !! q); reflexivity.
Qed.

Lemma qframe_route (m : value) (q : nat) (s : World) : qframe s (routeMessage m q s).
Proof.
  unfold routeMessage. destruct (_ || _).
  - refine (conj eq_refl (conj (le_n _) (fun q' => alter_enqueue_closed _ _ _ _))).
  - destruct (strict_eq_str _ _).
    + refine (conj eq_refl (conj (le_n _) (fun q' => alter_enqueue_closed _ _ _ _))).
    + (apply qcore_qframe; reflexivity).
Qed.

Lemma qframe_handle (d : option value) (s : World) : qframe s (handleIncomingMessage d s).
Proof.
  unfold handleIncomingMessage, handleIncomingMessage_try.
  destruct d as [p|]; [|(apply qcore_qframe; reflexivity)].
  destruct (get_prop p "request_id") as [rid|]; [|(apply qcore_qframe; reflexivity)].
  destruct (negb (truthy rid)); [(apply qcore_qframe; reflexivity)|].
  destruct (queue_lookup rid s); [apply qframe_route|(apply qcore_qframe; reflexivity)].
Qed.

Lemma qframe_removeConnection (hb : bool) (w : nat) (pageLive : bool) (s : World) :
  qframe s (removeConnection hb w pageLive s).
Proof.
  unfold removeConnection. destruct (ws_authIndex (ws_get w s)) as [a|]; [|(apply qcore_qframe; reflexivity)].
  destruct (hb && negb pageLive).
  - destruct (reconnectGraceTimers _ !! a); apply qcore_qframe; reflexivity.
  - destruct (reconnectGraceTimers _ !! a); cbn [setTimeout];
      refine (conj eq_refl (conj _ (fun _ => eq_refl))); unfold_world; lia.
Qed.

Lemma qinv_addConnection (w : nat) (v : value) (cur : Z) (s : World) :
  queue_inv s -> queue_inv (addConnection w v cur s).
Proof.
  intros Hs. unfold addConnection. destruct (rejectAuthIndex v).
  { eapply qframe_inv; [exact Hs|]. apply qcore_qframe. reflexivity. }
  set (a := match v with VNum a => a | _ => 0 end).
  assert (H1 : queue_inv (replaceExisting a w s)).
  { eapply qframe_inv; [exact Hs|]. apply qcore_qframe. unfold replaceExisting.
    destruct (connectionsByAuth s !! a); [destruct (Nat.eqb _ _)|]; reflexivity. }
  assert (H2 : queue_inv (clearGraceOnReconnect a cur (replaceExisting a w s))).
  { unfold clearGraceOnReconnect. destruct (reconnectGraceTimers _ !! a) as [t|]; [|exact H1].
    assert (H3 : queue_inv (set_reconnectGraceTimers (delete a (reconnectGraceTimers (replaceExisting a w s)))
                              (clearTimeout t (replaceExisting a w s)))).
    { eapply qframe_inv; [exact H1|]. apply qcore_qframe. reflexivity. }
    destruct (_ && _); [apply qinv_closeAll|]; exact H3. }
  eapply qframe_inv; [exact H2|]. apply qcore_qframe. reflexivity.
Qed.

Lemma qinv_graceExpire (hc : bool) (a cur : Z) (cb : CallbackCall) (s : World) :
  queue_inv s -> queue_inv (graceExpire hc a cur cb s).
Proof.
  intros Hs. unfold graceExpire. cbv zeta.
  set (s1 := if Z.eqb a cur then closeAllMessageQueues s else s).
  assert (H1 : queue_inv s1) by (unfold s1; destruct (Z.eqb a cur); [apply qinv_closeAll|]; exact Hs).
  clearbody s1. eapply qframe_inv; [exact H1|].
  destruct (hc && _).
  - destruct cb.
    + cbn [setTimeout]. refine (conj eq_refl (conj _ (fun _ => eq_refl))). unfold_world. lia.
    + apply qcore_qframe. reflexivity.
  - apply qcore_qframe. reflexivity.
Qed.

Lemma qframe_resumeRecovery (t : nat) (r : RaceOutcome) (s : World) : qframe s (resumeRecovery t r s).
Proof.
  unfold resumeRecovery. destruct (suspended s !! t); [|apply qframe_refl].
  apply qcore_qframe. destruct r; reflexivity.
Qed.

Lemma qframe_closeConnectionByAuth (a : Z) (s : World) : qframe s (closeConnectionByAuth a s).
Proof.
  unfold closeConnectionByAuth. destruct (connectionsByAuth s !! a); [|apply qframe_refl].
  destruct (reconnectGraceTimers _ !! a); apply qcore_qframe; reflexivity.
Qed.

Lemma exec_qinv (hb hc : bool) (op : Op) (s : World) : queue_inv s -> queue_inv (exec hb hc op s).
Proof.
  intros Hs. destruct op; cbn [exec].
  - apply qinv_addConnection, Hs.
  - destruct (ws_closed _); [exact Hs|].
    apply qinv_iter; [|exact Hs]. intros s' Hs'. eapply qframe_inv; [exact Hs'|apply qframe_handle].
  - destruct (ws_closed _); [exact Hs|].
    apply qinv_iter.
    + intros s' Hs'. eapply qframe_inv; [exact Hs'|apply qframe_removeConnection].
    + eapply qframe_inv; [exact Hs|]. apply qcore_qframe. reflexivity.
  - eapply qframe_inv; [exact Hs|apply qframe_closeConnectionByAuth].
  - apply qinv_create, Hs.
  - apply qinv_remove, Hs.
  - apply qinv_closeAll, Hs.
  - assert (H0 : queue_inv (clearTimeout t s)) by (eapply qframe_inv; [exact Hs|apply qcore_qframe; reflexivity]).
    destruct (timers s !! t) as [[[x|x] d]|]; [| |exact Hs].
    + apply qinv_graceExpire, H0.
    + eapply qframe_inv; [exact H0|apply qframe_resumeRecovery].
  - eapply qframe_inv; [exact Hs|apply qframe_resumeRecovery].
Qed.

Lemma run_qinv (hb hc : bool) (ops : list Op) (s : World) : queue_inv s -> queue_inv (run hb hc ops s).
Proof.
  revert s. induction ops as [|op ops IH]; intros s Hs; [exact Hs|]. apply IH, exec_qinv, Hs.
Qed.

Lemma init_qinv : queue_inv init.
Proof.
  unfold queue_inv, init. cbn [messageQueues queues next_id]. refine (conj _ (conj _ _)).
  - intros rid q H. rewrite lookup_empty in H. discriminate.
  - intros r1 r2 q H. rewrite lookup_empty in H. discriminate.
  - intros q [Q H]. rewrite lookup_empty in H. discriminate.
Qed.

(** X1.  In every reachable state, each request id registered in
    [messageQueues] names an existing queue that is still open (no queue
    is closed while registered) and whose id is below the next fresh id,
    and two request ids never share a queue. *)
Theorem registered_queues_open (hb hc : bool) (ops : list Op) :
  let s := run hb hc ops init in
  (forall rid q, messageQueues s !! rid = Some q ->
     (q < next_id s)%nat /\ exists Q, queues s !! q = Some Q /\ q_closed Q = false) /\
  (forall rid1 rid2 q, messageQueues s !! rid1 = Some q -> messageQueues s !! rid2 = Some q -> rid1 = rid2).
Proof.
  cbv zeta. destruct (run_qinv hb hc ops init init_qinv) as (Q1 & Q2 & _).
  exact (conj Q1 Q2).
Qed.

(** X2.  In a reachable state, [createMessageQueue(rid)] registers [rid]
    to a new, empty, open queue object and changes no other registration
    and no other queue.  When [rid] was already registered, its previous
    queue is not closed: it stays open but is no longer registered under
    any request id. *)
Theorem createMessageQueue_fresh (hb hc : bool) (ops : list Op) (rid : string) :
  let s := run hb hc ops init in
  let s' := createMessageQueue rid s in
  exists q, messageQueues s' !! rid = Some q /\ queues s !! q = None /\
    queues s' !! q = Some {| q_enqueued := []; q_closed := false |} /\
    (forall rid', rid' <> rid -> messageQueues s' !! rid' = messageQueues s !! rid') /\
    (forall q', q' <> q -> queues s' !! q' = queues s !! q') /\
    (forall q0, messageQueues s !! rid = Some q0 ->
       q0 <> q /\ (exists Q0, queues s' !! q0 = Some Q0 /\ q_closed Q0 = false) /\
       forall rid', messageQueues s' !! rid' <> Some q0).
Proof.
  cbv zeta. pose proof (run_qinv hb hc ops init init_qinv) as (Q1 & Q2 & Q3).
  set (s := run hb hc ops init) in *.
  unfold createMessageQueue. unfold_world.
  exists (next_id s).
  assert (Hfresh : queues s !! next_id s = None).
  { destruct (queues s !! next_id s) eqn:E; [|reflexivity]. specialize (Q3 _ (ex_intro _ _ E)). lia. }
  refine (conj (lookup_insert_eq _ _ _) (conj Hfresh (conj (lookup_insert_eq _ _ _) (conj _ (conj _ _))))).
  - intros rid' Hne. apply lookup_insert_ne. congruence.
  - intros q' Hne. apply lookup_insert_ne. congruence.
  - intros q0 H0. destruct (Q1 rid q0 H0) as (Hl & Q & HQ & HC).
    assert (Hne : q0 <> next_id s) by lia.
    refine (conj Hne (conj _ _)).
    + exists Q. rewrite lookup_insert_ne by congruence. split; [exact HQ|exact HC].
    + intros rid' E. destruct (decide (rid = rid')) as [<-|Hr].
      * rewrite lookup_insert_eq in E. congruence.
      * rewrite lookup_insert_ne in E by exact Hr. apply Hr. exact (Q2 _ _ _ H0 E).
Qed.

(** X3.  In a reachable state, [removeMessageQueue(rid)] of a registered
    [rid] closes its queue (keeping what was enqueued), unregisters [rid],
    and leaves the queues of the other requests untouched; for an
    unregistered [rid] it does nothing.  Either way a later frame for [rid]
    is only logged as unknown and reaches no queue. *)
Theorem removeMessageQueue_spec (hb hc : bool) (ops : list Op) (rid : string) :
  let s := run hb hc ops init in
  let s' := removeMessageQueue rid s in
  (match messageQueues s !! rid with
   | None => s' = s
   | Some q =>
       messageQueues s' = delete rid (messageQueues s) /\
       (exists Q, queues s !! q = Some Q /\ q_closed Q = false /\
                  queues s' !! q = Some {| q_enqueued := q_enqueued Q; q_closed := true |}) /\
       (forall rid' q', rid' <> rid -> messageQueues s !! rid' = Some q' -> queues s' !! q' = queues s !! q') /\
       (forall q', q' <> q -> queues s' !! q' = queues s !! q')
   end) /\
  (forall f, get_prop f "request_id" = Some (VStr rid) -> rid <> ""%string ->
     handleIncomingMessage (Some f) s' = log (LogUnknownRequestId (VStr rid)) s').
Proof.
  cbv zeta. pose proof (run_qinv hb hc ops init init_qinv) as (Q1 & Q2 & Q3).
  set (s := run hb hc ops init) in *.
  assert (Hgone : messageQueues (removeMessageQueue rid s) !! rid = None).
  { unfold removeMessageQueue. destruct (messageQueues s !! rid) eqn:E; [|exact E].
    unfold_world. apply lookup_delete_eq. }
  split.
  - unfold removeMessageQueue. destruct (messageQueues s !! rid) as [q|] eqn:Hr; [|reflexivity].
    unfold_world. destruct (Q1 rid q Hr) as (_ & Q & HQ & HC).
    refine (conj eq_refl (conj _ (conj _ _))).
    + exists Q. rewrite lookup_alter_eq, HQ. split; [reflexivity|split; [exact HC|reflexivity]].
    + intros rid' q' Hne H'. apply lookup_alter_ne. intros <-. apply Hne. exact (Q2 _ _ _ H' Hr).
    + intros q' Hne. apply lookup_alter_ne. congruence.
  - intros f Hf Hne. unfold handleIncomingMessage, handleIncomingMessage_try.
    rewrite Hf. cbn [truthy negb]. apply String.eqb_neq in Hne. rewrite Hne. cbn [negb queue_lookup].
    unfold queue_lookup. rewrite Hgone. reflexivity.
Qed.

(** X4.  [closeAllMessageQueues()] closes every registered queue (keeping
    what was enqueued), leaves unregistered queue objects alone, clears the
    request map and changes nothing else; a second call does nothing. *)
Theorem closeAllMessageQueues_spec (s : World) :
  let s' := closeAllMessageQueues s in
  messageQueues s' = ∅ /\
  (forall rid q, messageQueues s !! rid = Some q -> queues s' !! q = close_queue <$> queues s !! q) /\
  (forall q, (forall rid, messageQueues s !! rid <> Some q) -> queues s' !! q = queues s !! q) /\
  set_queues (queues s) (set_messageQueues (messageQueues s) s') = s /\
  closeAllMessageQueues s' = s'.
Proof.
  cbv zeta. rewrite closeAll_eq. unfold_world.
  refine (conj eq_refl (conj _ (conj _ (conj _ _)))).
  - intros rid q H. apply close_queues_in, (registered_queue_in_ids _ rid), H.
  - intros q H. apply close_queues_notin. intros Hin.
    apply list_elem_of_fmap in Hin as ([rid q'] & Heq & Hin). cbn in Heq. subst q'.
    apply elem_of_map_to_list in Hin. exact (H rid Hin).
  - destruct s; reflexivity.
  - unfold closeAllMessageQueues at 1. unfold_world. rewrite map_size_empty. reflexivity.
Qed.

(* ------------------------------------------------------------------ *)
(** ** isReconnectingInProgress, isInGracePeriod and the close paths *)

(** X5.  In every reachable state, [isReconnectingInProgress()] is true
    exactly while some recovery attempt is in flight (a grace-timer
    callback suspended at its [await]); it turns false once every attempt
    has completed, by success, failure or timeout. *)
Theorem isReconnectingInProgress_iff (hb hc : bool) (ops : list Op) :
  let s := run hb hc ops init in
  isReconnectingInProgress s = true <-> exists t a, suspended s !! t = Some a.
Proof.
  cbv zeta. pose proof (run_inv hb hc ops init init_inv) as (Ia & Ib & _).
  set (s := run hb hc ops init) in *.
  unfold isReconnectingInProgress. rewrite Nat.ltb_lt. split.
  - intros Hsz. destruct (map_size_ne_0_lookup_1 (reconnectingAccounts s)) as [a [b Hb]]; [lia|].
    pose proof (Ib a b Hb) as ->. destruct (proj1 (Ia a) Hb) as [t Ht]. eauto.
  - intros (t & a & Ht). assert (Hf : reconnectingAccounts s !! a = Some true) by (apply Ia; eauto).
    pose proof (map_size_ne_0_lookup_2 (reconnectingAccounts s) a (ex_intro _ _ Hf)). lia.
Qed.

(** One run of [_removeConnection] for a socket stamped with account [a]. *)
Lemma removeConnection_step (hb : bool) (w : nat) (pageLive : bool) (a : Z) (s : World) :
  ws_authIndex (ws_get w s) = Some a ->
  let s' := removeConnection hb w pageLive s in
  sockets s' = sockets s /\ connectionsByAuth s' !! a = None /\
  (forall a', a' <> a -> connectionsByAuth s' !! a' = connectionsByAuth s !! a') /\
  (if hb && negb pageLive
   then reconnectGraceTimers s' !! a = None /\
        (forall t x, timers s' !! t = Some x -> timers s !! t = Some x)
   else exists t, reconnectGraceTimers s' !! a = Some t /\
        timers s' !! t = Some {| t_kind := TGrace a; t_delay := 5000 |}).
Proof.
  intros H. cbv zeta. unfold removeConnection. rewrite H.
  assert (Hc : forall a', a' <> a -> delete a (connectionsByAuth s) !! a' = connectionsByAuth s !! a')
    by (intros a' Hne; apply lookup_delete_ne; congruence).
  unfold_world. destruct (hb && negb pageLive).
  - destruct (reconnectGraceTimers s !! a) as [t|] eqn:Hg; unfold_world.
    + refine (conj eq_refl (conj (lookup_delete_eq _ _) (conj Hc (conj (lookup_delete_eq _ _) _)))).
      intros t' x Ht'. apply lookup_delete_Some in Ht'. tauto.
    + refine (conj eq_refl (conj (lookup_delete_eq _ _) (conj Hc (conj Hg _)))).
      intros t' x Ht'. exact Ht'.
  - destruct (reconnectGraceTimers s !! a) as [t|] eqn:Hg; cbn [setTimeout]; unfold_world;
      (refine (conj eq_refl (conj (lookup_delete_eq _ _) (conj Hc _))));
      eexists; (split; [apply lookup_insert_eq|apply lookup_insert_eq]).
Qed.

(** The close listener run [n >= 1] times (once per registration). *)
Lemma removeConnection_iter (hb : bool) (w : nat) (pageLive : bool) (a : Z) (n : nat) (s : World) :
  ws_authIndex (ws_get w s) = Some a -> n <> 0%nat ->
  let s' := Nat.iter n (removeConnection hb w pageLive) s in
  sockets s' = sockets s /\ connectionsByAuth s' !! a = None /\
  (forall a', a' <> a -> connectionsByAuth s' !! a' = connectionsByAuth s !! a') /\
  (if hb && negb pageLive
   then reconnectGraceTimers s' !! a = None /\
        (forall t x, timers s' !! t = Some x -> timers s !! t = Some x)
   else exists t, reconnectGraceTimers s' !! a = Some t /\
        timers s' !! t = Some {| t_kind := TGrace a; t_delay := 5000 |}).
Proof.
  intros H Hn. cbv zeta. induction n as [|n IH]; [congruence|].
  rewrite Nat.iter_succ.
  destruct (decide (n = 0%nat)) as [->|Hn0]; [exact (removeConnection_step hb w pageLive a s H)|].
  destruct (IH Hn0) as (S1 & C1 & O1 & B1).
  assert (H' : ws_authIndex (ws_get w (Nat.iter n (removeConnection hb w pageLive) s)) = Some a)
    by (unfold ws_get; rewrite S1; exact H).
  destruct (removeConnection_step hb w pageLive a _ H') as (S2 & C2 & O2 & B2).
  refine (conj (eq_trans S2 S1) (conj C2 (conj _ _))).
  - intros a' Hne. rewrite O2 by exact Hne. apply O1, Hne.
  - destruct (hb && negb pageLive); [|exact B2].
    destruct B1 as [_ T1]. destruct B2 as [G2 T2]. split; [exact G2|]. intros t x Ht. apply T1, T2, Ht.
Qed.

(** The [close] event of a registered socket of account [a]. *)
Lemma close_event_effect (hb hc : bool) (w : nat) (pageLive : bool) (a : Z) (s : World) :
  0 <= a -> ws_authIndex (ws_get w s) = Some a -> ws_closed (ws_get w s) = false ->
  count_listener LClose (ws_listeners (ws_get w s)) <> 0%nat ->
  let s' := exec hb hc (OpSocketClose w pageLive) s in
  getConnectionByAuth a s' = None /\
  (forall a', a' <> a -> getConnectionByAuth a' s' = getConnectionByAuth a' s) /\
  (if hb && negb pageLive
   then isInGracePeriod a s' = false /\
        (forall t x, timers s' !! t = Some x -> timers s !! t = Some x)
   else isInGracePeriod a s' = true /\
        exists t, reconnectGraceTimers s' !! a = Some t /\
        timers s' !! t = Some {| t_kind := TGrace a; t_delay := 5000 |}).
Proof.
  intros Ha H Hc Hl. cbv zeta. cbn [exec]. rewrite Hc.
  assert (H' : ws_authIndex (ws_get w (ws_update w ws_mark_closed s)) = Some a)
    by (rewrite ws_get_update, decide_True by reflexivity; exact H).
  destruct (removeConnection_iter hb w pageLive a _ _ H' Hl) as (_ & C & O & B).
  unfold getConnectionByAuth, isInGracePeriod. apply Z.leb_le in Ha. rewrite Ha.
  refine (conj C (conj O _)). destruct (hb && negb pageLive).
  - destruct B as [G T]. rewrite G. split; [reflexivity|exact T].
  - destruct B as (t & G & T). rewrite G. split; [reflexivity|eauto].
Qed.

(** X6.  When the [close] event of a socket registered for account
    [a >= 0] is handled (its close listener attached at least once), [a]
    loses its connection and no other account does.  If the browser
    manager reports the page closed, [isInGracePeriod()] is false for [a]
    as current account and no timer is started; otherwise it is true and a
    5 s grace timer of [a] is pending. *)
Theorem close_event_grace_period (hb hc : bool) (w : nat) (pageLive : bool) (a : Z) (s : World) :
  0 <= a -> ws_authIndex (ws_get w s) = Some a -> ws_closed (ws_get w s) = false ->
  count_listener LClose (ws_listeners (ws_get w s)) <> 0%nat ->
  let s' := exec hb hc (OpSocketClose w pageLive) s in
  getConnectionByAuth a s' = None /\
  (forall a', a' <> a -> getConnectionByAuth a' s' = getConnectionByAuth a' s) /\
  (if hb && negb pageLive
   then isInGracePeriod a s' = false /\
        (forall t x, timers s' !! t = Some x -> timers s !! t = Some x)
   else isInGracePeriod a s' = true /\
        exists t, reconnectGraceTimers s' !! a = Some t /\
        timers s' !! t = Some {| t_kind := TGrace a; t_delay := 5000 |}).
Proof. exact (close_event_effect hb hc w pageLive a s). Qed.

Lemma close_event_grace_period_witness :
  let s' := exec false false (OpSocketClose 1 true) one_connection_world in
  isInGracePeriod 0 s' = true /\ getConnectionByAuth 0 s' = None.
Proof.
  pose proof (close_event_grace_period false false 1 true 0 one_connection_world ltac:(lia)
                ltac:(vm_compute; reflexivity) ltac:(vm_compute; reflexivity)
                ltac:(vm_compute; congruence)) as Hth.
  cbv zeta in Hth |- *. destruct Hth as (C & _ & B). cbn [andb negb] in B.
  destruct B as [G _]. split; [exact G|exact C].
Defined.

(** X7.  A valid [addConnection] for account [a] registers the socket,
    deletes the grace-timer entry of [a] (so [isInGracePeriod()] is false
    for [a] as current account) and clears the timer that entry named;
    every other timer is left as it was, including a grace timer of [a]
    whose entry was already deleted. *)
Theorem addConnection_ends_grace_period (w : nat) (a cur : Z) (s : World) :
  0 <= a ->
  let s' := addConnection w (VNum a) cur s in
  getConnectionByAuth a s' = Some w /\ isInGracePeriod a s' = false /\
  (forall t, reconnectGraceTimers s !! a = Some t -> timers s' !! t = None) /\
  (forall t, reconnectGraceTimers s !! a <> Some t -> timers s' !! t = timers s !! t).
Proof.
  intros Ha. cbv zeta.
  destruct (addConnection_valid_maps w a cur s Ha) as (C & G & T & _).
  unfold getConnectionByAuth, isInGracePeriod.
  rewrite C, G, T, lookup_insert_eq, lookup_delete_eq, andb_false_r.
  refine (conj eq_refl (conj eq_refl (conj _ _))).
  - intros t Ht. rewrite Ht. apply lookup_delete_eq.
  - intros t Ht. destruct (reconnectGraceTimers s !! a) as [t'|]; [|reflexivity].
    apply lookup_delete_ne. congruence.
Qed.

Lemma addConnection_ends_grace_period_witness :
  reconnectGraceTimers grace_world !! 0 = Some 1%nat /\
  isInGracePeriod 0 (addConnection 2 (VNum 0) 0 grace_world) = false /\
  timers (addConnection 2 (VNum 0) 0 grace_world) !! 1%nat = None.
Proof.
  pose proof (addConnection_ends_grace_period 2 0 0 grace_world ltac:(lia)) as Hth.
  cbv zeta in Hth. destruct Hth as (_ & G & T & _).
  assert (Hg : reconnectGraceTimers grace_world !! 0 = Some 1%nat) by (vm_compute; reflexivity).
  exact (conj Hg (conj G (T 1%nat Hg))).
Defined.

Lemma closeConnectionByAuth_effect (a : Z) (s : World) :
  let s' := closeConnectionByAuth a s in
  match connectionsByAuth s !! a with
  | None => s' = s
  | Some w =>
      getConnectionByAuth a s' = None /\
      (forall a', a' <> a -> getConnectionByAuth a' s' = getConnectionByAuth a' s) /\
      reconnectGraceTimers s' !! a = None /\
      (forall t, reconnectGraceTimers s !! a = Some t -> timers s' !! t = None) /\
      ws_get w s' = ws_close_call None (ws_get w s) /\
      (forall x, x <> w -> ws_get x s' = ws_get x s) /\
      reconnectingAccounts s' = reconnectingAccounts s /\ suspended s' = suspended s /\
      messageQueues s' = messageQueues s /\ queues s' = queues s
  end.
Proof.
  cbv zeta. unfold closeConnectionByAuth.
  destruct (connectionsByAuth s !! a) as [w|] eqn:Hw; [|reflexivity].
  unfold_world. unfold getConnectionByAuth.
  assert (Hc : forall a', a' <> a -> delete a (connectionsByAuth s) !! a' = connectionsByAuth s !! a')
    by (intros a' Hne; apply lookup_delete_ne; congruence).
  destruct (reconnectGraceTimers s !! a) as [t|] eqn:Hg; unfold_world;
    refine (conj (lookup_delete_eq _ _) (conj Hc (conj _ (conj _ (conj _ (conj _ _)))))).
  all: try (repeat split; fail).
  all: try (unfold ws_get; unfold_world; rewrite lookup_insert_eq; reflexivity).
  all: try (intros x Hne; unfold ws_get at 1; unfold_world; rewrite lookup_insert_ne by congruence; reflexivity).
  - apply lookup_delete_eq.
  - intros t' Ht'. injection Ht' as <-. apply lookup_delete_eq.
  - exact Hg.
  - intros t' Ht'. discriminate.
Qed.

(** X8.  [closeConnectionByAuth(a)] with a connection [w] for [a] calls
    [w.close()] once (no code), keeps [w]'s listeners and stamp,
    unregisters [a] (no other account), removes [a]'s grace-timer entry and
    clears its timer, and touches no recovery flag, suspended recovery or
    queue.  Without a connection for [a] it does nothing, even when a
    grace timer of [a] is pending. *)
Theorem closeConnectionByAuth_spec (a : Z) (s : World) :
  let s' := closeConnectionByAuth a s in
  match connectionsByAuth s !! a with
  | None => s' = s
  | Some w =>
      getConnectionByAuth a s' = None /\
      (forall a', a' <> a -> getConnectionByAuth a' s' = getConnectionByAuth a' s) /\
      reconnectGraceTimers s' !! a = None /\
      (forall t, reconnectGraceTimers s !! a = Some t -> timers s' !! t = None) /\
      ws_get w s' = ws_close_call None (ws_get w s) /\
      (forall x, x <> w -> ws_get x s' = ws_get x s) /\
      reconnectingAccounts s' = reconnectingAccounts s /\ suspended s' = suspended s /\
      messageQueues s' = messageQueues s /\ queues s' = queues s
  end.
Proof. exact (closeConnectionByAuth_effect a s). Qed.

(** X9.  [closeConnectionByAuth(a)] does not stop the grace period: when
    the [close] event of the socket it closed arrives and the browser
    manager does not report the page closed, [_removeConnection] still
    starts a 5 s grace timer for [a], so [isInGracePeriod()] is true for
    [a] and the recovery path will run when the timer fires. *)
Theorem closeConnectionByAuth_then_close_event (hb hc : bool) (w : nat) (pageLive : bool) (a : Z) (s : World) :
  0 <= a -> connectionsByAuth s !! a = Some w -> ws_authIndex (ws_get w s) = Some a ->
  ws_closed (ws_get w s) = false -> count_listener LClose (ws_listeners (ws_get w s)) <> 0%nat ->
  hb && negb pageLive = false ->
  let s' := run hb hc [OpCloseConnectionByAuth a; OpSocketClose w pageLive] s in
  getConnectionByAuth a s' = None /\ isInGracePeriod a s' = true /\
  exists t, reconnectGraceTimers s' !! a = Some t /\
            timers s' !! t = Some {| t_kind := TGrace a; t_delay := 5000 |}.
Proof.
  intros Ha Hw H Hc Hl Hb. cbv zeta.
  change (run hb hc [OpCloseConnectionByAuth a; OpSocketClose w pageLive] s)
    with (exec hb hc (OpSocketClose w pageLive) (closeConnectionByAuth a s)).
  pose proof (closeConnectionByAuth_effect a s) as E. cbv zeta in E. rewrite Hw in E.
  destruct E as (_ & _ & _ & _ & Ew & _).
  assert (H1 : ws_authIndex (ws_get w (closeConnectionByAuth a s)) = Some a) by (rewrite Ew; exact H).
  assert (H2 : ws_closed (ws_get w (closeConnectionByAuth a s)) = false) by (rewrite Ew; exact Hc).
  assert (H3 : count_listener LClose (ws_listeners (ws_get w (closeConnectionByAuth a s))) <> 0%nat)
    by (rewrite Ew; exact Hl).
  destruct (close_event_effect hb hc w pageLive a (closeConnectionByAuth a s) Ha H1 H2 H3)
    as (C & _ & B).
  rewrite Hb in B. destruct B as [G T]. exact (conj C (conj G T)).
Qed.

Lemma closeConnectionByAuth_then_close_event_witness :
  let s' := run false false [OpCloseConnectionByAuth 0; OpSocketClose 1 true] one_connection_world in
  isInGracePeriod 0 s' = true.
Proof.
  pose proof (closeConnectionByAuth_then_close_event false false 1 true 0 one_connection_world
                ltac:(lia) ltac:(vm_compute; reflexivity) ltac:(vm_compute; reflexivity)
                ltac:(vm_compute; reflexivity) ltac:(vm_compute; congruence) eq_refl) as Hth.
  cbv zeta in Hth |- *. exact (proj1 (proj2 Hth)).
Defined.

(** X10.  [_removeConnection] unregisters whatever socket the map holds
    for the account, not only the one that closed: if
    [closeConnectionByAuth(a)] closes socket [w1], a new socket [w2]
    registers for [a], and only then [w1]'s [close] event arrives, [w2] is
    unregistered (as is [a]) although [w2] is open and still carries its
    listeners and stamp. *)
Theorem stale_close_unregisters_new_connection (hb hc : bool) (w1 w2 : nat) (pageLive : bool)
    (a cur : Z) (s : World) :
  0 <= a -> connectionsByAuth s !! a = Some w1 -> ws_authIndex (ws_get w1 s) = Some a ->
  ws_closed (ws_get w1 s) = false -> count_listener LClose (ws_listeners (ws_get w1 s)) <> 0%nat ->
  w2 <> w1 ->
  let s1 := run hb hc [OpCloseConnectionByAuth a; OpAddConnection w2 (VNum a) cur] s in
  let s' := exec hb hc (OpSocketClose w1 pageLive) s1 in
  getConnectionByAuth a s1 = Some w2 /\ getConnectionByAuth a s' = None /\
  ws_get w2 s' = ws_register a (ws_get w2 s).
Proof.
  intros Ha Hw H Hc Hl Hne. cbv zeta. cbn [run foldl exec].
  pose proof (closeConnectionByAuth_effect a s) as E. cbv zeta in E. rewrite Hw in E.
  destruct E as (C0 & _ & _ & _ & Ew1 & Ex & _).
  set (s0 := closeConnectionByAuth a s) in *.
  destruct (addConnection_valid_maps w2 a cur s0 Ha) as (C1 & _).
  pose proof (addConnection_valid_sockets w2 w1 a cur s0 Ha) as S1.
  pose proof (addConnection_valid_sockets w2 w2 a cur s0 Ha) as S2.
  unfold getConnectionByAuth in C0.
  rewrite decide_False in S1 by exact (not_eq_sym Hne). rewrite C0, decide_False in S1 by discriminate.
  rewrite decide_True in S2 by reflexivity. rewrite Ex in S2 by exact Hne.
  set (s1 := addConnection w2 (VNum a) cur s0) in *.
  rewrite S1, Ew1. cbn [ws_close_call ws_closed ws_listeners]. rewrite Hc.
  assert (H' : ws_authIndex (ws_get w1 (ws_update w1 ws_mark_closed s1)) = Some a).
  { rewrite ws_get_update, decide_True by reflexivity. rewrite S1, Ew1. exact H. }
  destruct (removeConnection_iter hb w1 pageLive a (count_listener LClose (ws_listeners (ws_get w1 s))) _ H' Hl)
    as (Ss & C & _ & _).
  unfold getConnectionByAuth. rewrite C1, lookup_insert_eq.
  refine (conj eq_refl (conj C _)).
  unfold ws_get at 1. rewrite Ss. fold (ws_get w2 (ws_update w1 ws_mark_closed s1)).
  rewrite ws_get_update, decide_False by exact Hne. exact S2.
Qed.

Lemma stale_close_unregisters_new_connection_witness :
  let s1 := run false false [OpCloseConnectionByAuth 0; OpAddConnection 2 (VNum 0) 0] one_connection_world in
  getConnectionByAuth 0 s1 = Some 2%nat /\
  getConnectionByAuth 0 (exec false false (OpSocketClose 1 true) s1) = None.
Proof.
  pose proof (stale_close_unregisters_new_connection false false 1 2 true 0 0 one_connection_world
                ltac:(lia) ltac:(vm_compute; reflexivity) ltac:(vm_compute; reflexivity)
                ltac:(vm_compute; reflexivity) ltac:(vm_compute; congruence) ltac:(lia)) as Hth.
  cbv zeta in Hth |- *. exact (conj (proj1 Hth) (proj1 (proj2 Hth))).
Defined.
